(** * Short-time processing of audio signals: analysis (stana) and
      overlap-add synthesis (ola)

    A shallow embedding of [audlib/sig/stproc.py].

    - Sizes and indices are Python integers: [Z].
    - Samples are numpy float64 values.  Sample arithmetic (the products
      with the window, the sums of overlap-add) is idealised as exact
      arithmetic on rationals ([Qc], with Leibniz equality).
    - The start offset of [ola], [int(-fsize * (1-hfrac))], decides the
      shape of the result, so it is computed with IEEE binary64 numbers
      ([PrimFloat]), exactly as the source does.
    - [math.ceil(a / b)] on integers is the exact ceiling: the quotient of
      two integers below 2^53 is rounded correctly and never crosses an
      integer.
    - A Python exception is [None]. *)

From Stdlib Require Import ZArith List Bool Lia QArith Qcanon Floats Uint63.
Import ListNotations.
Open Scope Z_scope.

(** ** The numpy operations used by the module *)

Abbreviation ndarray := (list Qc).

Definition len {A : Type} (l : list A) : Z := Z.of_nat (length l).

Definition bind {A B : Type} (m : option A) (k : A -> option B) : option B :=
  match m with
  | Some x => k x
  | None => None
  end.

Notation "x <- m ;; k" := (bind m (fun x => k))
  (at level 61, m at next level, right associativity).

Fixpoint mapM {A B : Type} (f : A -> option B) (l : list A) : option (list B) :=
  match l with
  | [] => Some []
  | a :: l' => b <- f a ;; bs <- mapM f l' ;; Some (b :: bs)
  end.

(** [np.zeros(n)]: a negative size raises ValueError. *)
Definition np_zeros (n : Z) : option ndarray :=
  if n <? 0 then None else Some (repeat 0%Qc (Z.to_nat n)).

(** A slice bound of Python, on a sequence of length [n]. *)
Definition norm_index (n i : Z) : Z :=
  if i <? 0 then Z.max 0 (i + n) else Z.min i n.

(** [l[a:b]] selects the positions [s <= k < e]; a missing bound is [None]. *)
Definition slice_bounds (n : Z) (a b : option Z) : Z * Z :=
  let s := match a with Some a => norm_index n a | None => 0 end in
  let e := match b with Some b => norm_index n b | None => n end in
  (s, Z.max s e).

Definition get_slice (l : ndarray) (a b : option Z) : ndarray :=
  let '(s, e) := slice_bounds (len l) a b in
  firstn (Z.to_nat (e - s)) (skipn (Z.to_nat s) l).

(** numpy broadcasting of a 1-D operand onto a 1-D destination of [d]
    elements: the lengths agree, or the operand has exactly one element. *)
Definition broadcast_to (d : nat) (src : ndarray) : option ndarray :=
  if Nat.eqb (length src) d then Some src
  else match src with
       | [x] => Some (repeat x d)
       | _ => None
       end.

Fixpoint vec_add (a b : ndarray) : ndarray :=
  match a, b with
  | x :: a', y :: b' => (x + y)%Qc :: vec_add a' b'
  | _, _ => []
  end.

Fixpoint vec_mul (a b : ndarray) : ndarray :=
  match a, b with
  | x :: a', y :: b' => (x * y)%Qc :: vec_mul a' b'
  | _, _ => []
  end.

(** [l[a:b] = src] *)
Definition set_slice (l : ndarray) (a b : option Z) (src : ndarray)
  : option ndarray :=
  let '(s, e) := slice_bounds (len l) a b in
  src' <- broadcast_to (Z.to_nat (e - s)) src ;;
  Some (firstn (Z.to_nat s) l ++ src' ++ skipn (Z.to_nat e) l).

(** [l[a:b] += src] *)
Definition iadd_slice (l : ndarray) (a b : option Z) (src : ndarray)
  : option ndarray :=
  let '(s, e) := slice_bounds (len l) a b in
  src' <- broadcast_to (Z.to_nat (e - s)) src ;;
  Some (firstn (Z.to_nat s) l
          ++ vec_add (get_slice l a b) src'
          ++ skipn (Z.to_nat e) l).

(** One row of [as_strided]: [fsize] elements from element offset [off].
    A view that leaves the buffer reads foreign memory; the model refuses
    it. *)
Definition strided_row (buf : ndarray) (fsize off : Z) : option ndarray :=
  if (0 <=? off) && (off + fsize <=? len buf)
  then Some (firstn (Z.to_nat fsize) (skipn (Z.to_nat off) buf))
  else None.

(** [as_strided(buf, shape=(nframe, fsize), strides=(std*hsize, std))] on a
    contiguous float64 buffer. *)
Definition as_strided (buf : ndarray) (nframe fsize hsize : Z)
  : option (list ndarray) :=
  if (nframe <? 0) || (fsize <? 0) then None
  else mapM (fun i => strided_row buf fsize (Z.of_nat i * hsize))
            (seq 0 (Z.to_nat nframe)).

(** [math.ceil(a / b)] on integers; [b = 0] raises ZeroDivisionError. *)
Definition py_ceil_div (a b : Z) : option Z :=
  if b =? 0 then None else Some (- ((- a) / b)).

Fixpoint arange_up (fuel : nat) (x stop step : Z) : list Z :=
  match fuel with
  | O => []
  | S k => if x <? stop then x :: arange_up k (x + step) stop step else []
  end.

Fixpoint arange_down (fuel : nat) (x stop step : Z) : list Z :=
  match fuel with
  | O => []
  | S k => if stop <? x then x :: arange_down k (x + step) stop step else []
  end.

(** [np.arange(start, stop, step)] on integers. *)
Definition np_arange (start stop step : Z) : option (list Z) :=
  if step =? 0 then None
  else if 0 <? step then Some (arange_up (Z.to_nat (stop - start)) start stop step)
  else Some (arange_down (Z.to_nat (start - stop)) start stop step).

Definition Qc_of_Z (z : Z) : Qc := Q2Qc (inject_Z z).

(** ** Float arithmetic of the start offset *)

(** A Python integer as a float; exact below 2^53. *)
Definition float_of_Z (z : Z) : float :=
  if z <? 0 then PrimFloat.opp (PrimFloat.of_uint63 (Uint63.of_Z (- z)))
  else PrimFloat.of_uint63 (Uint63.of_Z z).

(** [int(x)]: truncation toward zero; nan and the infinities raise. *)
Definition int_of_float (x : float) : option Z :=
  match Prim2SF x with
  | S754_zero _ => Some 0
  | S754_finite s m e =>
      let a := Z.shiftl (Zpos m) e in Some (if s then - a else a)
  | S754_infinity _ => None
  | S754_nan => None
  end.

(** [hfrac = hsize*1. / fsize; sstart = int(-fsize * (1-hfrac))] *)
Definition ola_sstart (fsize hsize : Z) : option Z :=
  if fsize =? 0 then None
  else
    let hfrac :=
      PrimFloat.div (PrimFloat.mul (float_of_Z hsize) 1%float)
                    (float_of_Z fsize) in
    int_of_float
      (PrimFloat.mul (float_of_Z (- fsize)) (PrimFloat.sub 1%float hfrac)).

(** ** The module *)

(** The local variables of [stana]. *)
Record geometry : Type := Geometry {
  sstart : Z;
  send : Z;
  nframe : Z;
  zpleft : Z;
  zpright : Z
}.

Section Stproc.

(** [hop2hsize] belongs to the window module: a parameter here. *)
Variable hop_t : Type.
Variable hop2hsize : ndarray -> hop_t -> Z.

Definition stcenters (sig : ndarray) (sr : Z) (wind : ndarray) (hop : hop_t)
    (synth : bool) : option (list Qc) :=
  let ssize := len sig in
  let fsize := len wind in
  let hsize := hop2hsize wind hop in
  let sstart := if synth then hsize - fsize else 0 in
  let send := ssize in
  grid <- np_arange sstart send hsize ;;
  Some (map (fun x => ((Qc_of_Z x + Qc_of_Z (fsize - 1) / Qc_of_Z 2)
                       / Qc_of_Z sr)%Qc) grid).

Definition numframes (sig : ndarray) (sr : Z) (wind : ndarray) (hop : hop_t)
    (synth : bool) : option Z :=
  let ssize := len sig in
  let fsize := len wind in
  let hsize := hop2hsize wind hop in
  let sstart := if synth then hsize - fsize else 0 in
  let send := ssize in
  py_ceil_div (send - sstart) hsize.

(** Lines 106-115 of [stana]. *)
Definition stana_geometry (ssize fsize hsize : Z) (synth : bool)
  : option geometry :=
  let sstart := if synth then hsize - fsize else 0 in
  let send := ssize in
  nframe <- py_ceil_div (send - sstart) hsize ;;
  let zpleft := - sstart in
  let zpright := (nframe - 1) * hsize + fsize - zpleft - ssize in
  Some (Geometry sstart send nframe zpleft zpright).

(** Lines 116-120 of [stana]: the buffer that is framed. *)
Definition stana_sigpad (sig : ndarray) (g : geometry) : option ndarray :=
  let ssize := len sig in
  if (zpleft g >? 0) || (zpright g >? 0) then
    sigpad <- np_zeros (ssize + zpleft g + zpright g) ;;
    set_slice sigpad (Some (zpleft g)) (Some (len sigpad - zpright g)) sig
  else Some sig.

Definition stana (sig : ndarray) (sr : Z) (wind : ndarray) (hop : hop_t)
    (synth : bool) : option (list ndarray) :=
  let ssize := len sig in
  let fsize := len wind in
  let hsize := hop2hsize wind hop in
  g <- stana_geometry ssize fsize hsize synth ;;
  sigpad <- stana_sigpad sig g ;;
  frames <- as_strided sigpad (nframe g) fsize hsize ;;
  Some (map (fun frame => vec_mul frame wind) frames).

(** The loop of [ola]: [ii] is the pointer to the current frame. *)
Fixpoint ola_loop (fsize hsize send : Z) (sframes : list ndarray) (ii : Z)
    (sout : ndarray) : option ndarray :=
  match sframes with
  | [] => Some sout
  | frame :: rest =>
      let frame := get_slice frame None (Some fsize) in
      sout' <-
        (if ii <? 0 then
           iadd_slice sout None (Some (ii + fsize))
                      (get_slice frame (Some (- ii)) None)
         else if ii + fsize >? send then
           iadd_slice sout (Some ii) None
                      (get_slice frame None (Some (send - ii)))
         else
           iadd_slice sout (Some ii) (Some (ii + fsize)) frame) ;;
      ola_loop fsize hsize send rest (ii + hsize) sout'
  end.

Definition ola (sframes : list ndarray) (sr : Z) (wind : ndarray)
    (hop : hop_t) : option ndarray :=
  let nframe := len sframes in
  let fsize := len wind in
  let hsize := hop2hsize wind hop in
  sstart <- ola_sstart fsize hsize ;;
  let ssize := hsize * (nframe - 1) + fsize in
  let send := ssize + sstart in
  let ii := sstart in
  sout <- np_zeros send ;;
  ola_loop fsize hsize send sframes ii sout.

End Stproc.

Arguments stcenters {hop_t} hop2hsize sig sr wind hop synth.
Arguments numframes {hop_t} hop2hsize sig sr wind hop synth.
Arguments stana {hop_t} hop2hsize sig sr wind hop synth.
Arguments ola {hop_t} hop2hsize sframes sr wind hop.

(** Modelled from the spec: [hop2hsize] lives in the window module, whose
    source is absent; for an absolute integer hop it returns the hop
    unchanged. *)
Definition int_hop (wind : ndarray) (hop : Z) : Z := hop.

(** ** Decidable equality of arrays, for closed computations *)

Fixpoint ndarray_eqb (a b : ndarray) : bool :=
  match a, b with
  | [], [] => true
  | x :: a', y :: b' => Qc_eq_bool x y && ndarray_eqb a' b'
  | _, _ => false
  end.

Fixpoint frames_eqb (a b : list ndarray) : bool :=
  match a, b with
  | [], [] => true
  | x :: a', y :: b' => ndarray_eqb x y && frames_eqb a' b'
  | _, _ => false
  end.

Definition option_eqb {A : Type} (eqb : A -> A -> bool) (a b : option A)
  : bool :=
  match a, b with
  | Some x, Some y => eqb x y
  | None, None => true
  | _, _ => false
  end.

(** ** Constant overlap-add *)

(** The sample at an integer position; 0 outside the array. *)
Definition at_ (l : ndarray) (i : Z) : Qc :=
  if i <? 0 then 0%Qc else nth (Z.to_nat i) l 0%Qc.

(** [g s + g (s+1) + ... + g (s+n-1)] *)
Fixpoint sum_from (g : Z -> Qc) (s : Z) (n : nat) : Qc :=
  match n with
  | O => 0%Qc
  | S n' => (g s + sum_from g (s + 1) n')%Qc
  end.

(** Constant overlap-add with constant one: for every phase [c] below the
    hop, the window samples at [c], [c + hsize], [c + 2*hsize], ... add up
    to 1. *)
Definition cola_sum (wind : ndarray) (hsize c : Z) : Qc :=
  sum_from (fun j => at_ wind (c + j * hsize)) 0 (length wind).

Definition cola (wind : ndarray) (hsize : Z) : bool :=
  forallb (fun c => Qc_eq_bool (cola_sum wind hsize (Z.of_nat c)) 1%Qc)
          (seq 0 (Z.to_nat hsize)).

(** ** Overlap-add, pointwise *)

(** The sample that a frame placed at [ii] adds at position [x]. *)
Definition frame_term (fsize : Z) (frame : ndarray) (ii x : Z) : Qc :=
  if (ii <=? x) && (x <? ii + fsize) then at_ frame (x - ii) else 0%Qc.

(** The sum that frames placed at [ii], [ii + hsize], ... leave at [x]. *)
Fixpoint ola_sum (fsize hsize : Z) (sframes : list ndarray) (ii x : Z) : Qc :=
  match sframes with
  | [] => 0%Qc
  | frame :: rest =>
      (frame_term fsize frame ii x + ola_sum fsize hsize rest (ii + hsize) x)%Qc
  end.

(** The buffer [stana] frames: [zpleft] zeros, the signal, [zpright] zeros
    (a count that is not positive gives no zeros). *)
Definition padded (sig : ndarray) (g : geometry) : ndarray :=
  repeat 0%Qc (Z.to_nat (zpleft g)) ++ sig
    ++ repeat 0%Qc (Z.to_nat (zpright g)).

(** ** Concrete inputs *)

Definition zs (l : list Z) : ndarray := map Qc_of_Z l.
Definition ones (n : nat) : ndarray := repeat 1%Qc n.
Definition halves (n : nat) : ndarray := repeat (Qc_of_Z 1 / Qc_of_Z 2)%Qc n.

(** The round trip [ola] after [stana], both with the same window and hop. *)
Definition roundtrip {hop_t : Type} (hop2hsize : ndarray -> hop_t -> Z)
    (sig : ndarray) (sr : Z) (wind : ndarray) (hop : hop_t) (synth : bool)
  : option ndarray :=
  frames <- stana hop2hsize sig sr wind hop synth ;;
  ola hop2hsize frames sr wind hop.

(** The window [0, 0.2, 0.6, 1, 1, 0.6, 0.2, 0]. *)
Definition example_window : ndarray :=
  [ 0%Qc; (Qc_of_Z 1 / Qc_of_Z 5)%Qc; (Qc_of_Z 3 / Qc_of_Z 5)%Qc; 1%Qc;
    1%Qc; (Qc_of_Z 3 / Qc_of_Z 5)%Qc; (Qc_of_Z 1 / Qc_of_Z 5)%Qc; 0%Qc ].

(** ** Hop size from a frame rate, and checks of the float formulas *)

(** [frate2hsize]: [int(sr*1.0/frate)]; a zero frame rate raises
    ZeroDivisionError. *)
Definition frate2hsize (sr frate : Z) : option Z :=
  if frate =? 0 then None
  else int_of_float
         (PrimFloat.div (PrimFloat.mul (float_of_Z sr) 1%float)
                        (float_of_Z frate)).

(** The integers [1, ..., n]. *)
Definition ints_upto (n : nat) : list Z := map Z.of_nat (seq 1 n).

(** The start offset of [ola] is [hsize - fsize]. *)
Definition sstart_exactb (fsize hsize : Z) : bool :=
  option_eqb Z.eqb (ola_sstart fsize hsize) (Some (hsize - fsize)).

(** The start offset of [ola] is [hsize - fsize], or one sample nearer to
    zero. *)
Definition sstart_nearb (fsize hsize : Z) : bool :=
  match ola_sstart fsize hsize with
  | Some s =>
      (s =? hsize - fsize)
      || ((hsize <? fsize) && (s =? hsize - fsize + 1))
      || ((fsize <? hsize) && (s =? hsize - fsize - 1))
  | None => false
  end.

(** Usual sampling rates, in Hz. *)
Definition usual_rates : list Z :=
  [8000; 11025; 16000; 22050; 24000; 32000; 44100; 48000; 96000].

Definition frate2hsize_floorb (sr frate : Z) : bool :=
  option_eqb Z.eqb (frate2hsize sr frate) (Some (sr / frate)).

(** * Proofs *)

(** ** Deciding equalities of computed arrays *)

Lemma Qc_eq_bool_refl (x : Qc) : Qc_eq_bool x x = true.
Proof.
  unfold Qc_eq_bool. destruct (Qc_eq_dec x x) as [_ | N]; [reflexivity | now elim N].
Qed.

Lemma ndarray_eqb_eq (a b : ndarray) : ndarray_eqb a b = true <-> a = b.
Proof.
  revert b. induction a as [| x a IH]; intros [| y b]; simpl; split;
    try congruence; try reflexivity.
  - intros H. apply andb_true_iff in H as [Hx Hr].
    apply Qc_eq_bool_correct in Hx. apply IH in Hr. congruence.
  - intros H. injection H as -> ->. rewrite Qc_eq_bool_refl. now apply IH.
Qed.

Lemma frames_eqb_eq (a b : list ndarray) : frames_eqb a b = true <-> a = b.
Proof.
  revert b. induction a as [| x a IH]; intros [| y b]; simpl; split;
    try congruence; try reflexivity.
  - intros H. apply andb_true_iff in H as [Hx Hr].
    apply ndarray_eqb_eq in Hx. apply IH in Hr. congruence.
  - intros H. injection H as -> ->.
    apply andb_true_iff. split; [now apply ndarray_eqb_eq | now apply IH].
Qed.

Lemma option_eqb_eq {A : Type} (eqb : A -> A -> bool)
    (eqb_eq : forall x y, eqb x y = true <-> x = y) (a b : option A) :
  option_eqb eqb a b = true <-> a = b.
Proof.
  destruct a as [x |], b as [y |]; simpl; split; try congruence; try reflexivity.
  - intros H. apply eqb_eq in H. congruence.
  - intros H. injection H as ->. now apply eqb_eq.
Qed.

Lemma array_result_eq (a b : option ndarray) :
  option_eqb ndarray_eqb a b = true -> a = b.
Proof. apply option_eqb_eq, ndarray_eqb_eq. Qed.

Lemma array_result_neq (a b : option ndarray) :
  option_eqb ndarray_eqb a b = false -> a <> b.
Proof.
  intros H E. apply (option_eqb_eq _ ndarray_eqb_eq) in E. congruence.
Qed.

Lemma frames_result_eq (a b : option (list ndarray)) :
  option_eqb frames_eqb a b = true -> a = b.
Proof. apply option_eqb_eq, frames_eqb_eq. Qed.

Lemma frames_result_neq (a b : option (list ndarray)) :
  option_eqb frames_eqb a b = false -> a <> b.
Proof.
  intros H E. apply (option_eqb_eq _ frames_eqb_eq) in E. congruence.
Qed.

Ltac by_computation :=
  first [ apply array_result_eq | apply array_result_neq
        | apply frames_result_eq | apply frames_result_neq ];
  vm_compute; reflexivity.

(** ** Lists indexed by integers *)

Lemma len_nonneg {A : Type} (l : list A) : 0 <= len l.
Proof. unfold len. lia. Qed.

Lemma len_app {A : Type} (a b : list A) : len (a ++ b) = len a + len b.
Proof. unfold len. rewrite length_app. lia. Qed.

Lemma len_repeat {A : Type} (x : A) (n : nat) : len (repeat x n) = Z.of_nat n.
Proof. unfold len. now rewrite repeat_length. Qed.

Lemma at_neg (l : ndarray) (x : Z) : x < 0 -> at_ l x = 0%Qc.
Proof. intros H. unfold at_. destruct (Z.ltb_spec x 0); [reflexivity | lia]. Qed.

Lemma at_overflow (l : ndarray) (x : Z) : len l <= x -> at_ l x = 0%Qc.
Proof.
  intros H. unfold at_. destruct (Z.ltb_spec x 0); [reflexivity |].
  apply nth_overflow. unfold len in H. lia.
Qed.

Lemma at_nth (l : ndarray) (x : Z) :
  0 <= x -> at_ l x = nth (Z.to_nat x) l 0%Qc.
Proof. intros H. unfold at_. destruct (Z.ltb_spec x 0); [lia | reflexivity]. Qed.

Lemma at_app (a b : ndarray) (x : Z) :
  at_ (a ++ b) x = if x <? len a then at_ a x else at_ b (x - len a).
Proof.
  unfold at_, len.
  destruct (Z.ltb_spec x 0) as [Hx | Hx].
  - destruct (Z.ltb_spec x (Z.of_nat (length a))); [reflexivity |].
    destruct (Z.ltb_spec (x - Z.of_nat (length a)) 0); [reflexivity | lia].
  - destruct (Z.ltb_spec x (Z.of_nat (length a))) as [Ha | Ha].
    + apply app_nth1. lia.
    + destruct (Z.ltb_spec (x - Z.of_nat (length a)) 0); [lia |].
      rewrite app_nth2 by lia. f_equal. lia.
Qed.

Lemma at_firstn (l : ndarray) (k x : Z) :
  0 <= k -> at_ (firstn (Z.to_nat k) l) x = if x <? k then at_ l x else 0%Qc.
Proof.
  intros Hk. unfold at_.
  destruct (Z.ltb_spec x 0) as [Hx | Hx].
  - now destruct (x <? k).
  - rewrite nth_firstn.
    destruct (Z.ltb_spec x k), (Nat.ltb_spec (Z.to_nat x) (Z.to_nat k));
      try reflexivity; lia.
Qed.

Lemma at_skipn (l : ndarray) (k x : Z) :
  0 <= k -> 0 <= x -> at_ (skipn (Z.to_nat k) l) x = at_ l (x + k).
Proof.
  intros Hk Hx. rewrite !at_nth by lia. rewrite nth_skipn. f_equal. lia.
Qed.

Lemma at_repeat_zero (n : nat) (x : Z) : at_ (repeat 0%Qc n) x = 0%Qc.
Proof.
  unfold at_. destruct (x <? 0); [reflexivity |].
  destruct (Nat.lt_ge_cases (Z.to_nat x) n) as [H | H].
  - now apply nth_repeat_lt.
  - apply nth_overflow. now rewrite repeat_length.
Qed.

Lemma length_vec_add (a b : ndarray) :
  length (vec_add a b) = Nat.min (length a) (length b).
Proof.
  revert b. induction a as [| x a IH]; intros [| y b]; simpl; auto.
Qed.

Lemma length_vec_mul (a b : ndarray) :
  length (vec_mul a b) = Nat.min (length a) (length b).
Proof.
  revert b. induction a as [| x a IH]; intros [| y b]; simpl; auto.
Qed.

Lemma nth_vec_add (a b : ndarray) (i : nat) :
  length a = length b ->
  nth i (vec_add a b) 0%Qc = (nth i a 0 + nth i b 0)%Qc.
Proof.
  revert b i. induction a as [| x a IH]; intros [| y b] i E; simpl in *;
    try discriminate.
  - destruct i; ring.
  - destruct i; [reflexivity | apply IH; lia].
Qed.

Lemma nth_vec_mul (a b : ndarray) (i : nat) :
  nth i (vec_mul a b) 0%Qc = (nth i a 0 * nth i b 0)%Qc.
Proof.
  revert b i. induction a as [| x a IH]; intros [| y b] i; simpl.
  - destruct i; ring.
  - destruct i; ring.
  - destruct i; ring.
  - destruct i; [reflexivity | apply IH].
Qed.

Lemma at_vec_add (a b : ndarray) (x : Z) :
  length a = length b -> at_ (vec_add a b) x = (at_ a x + at_ b x)%Qc.
Proof.
  intros E. unfold at_. destruct (x <? 0); [ring | now apply nth_vec_add].
Qed.

Lemma at_vec_mul (a b : ndarray) (x : Z) :
  at_ (vec_mul a b) x = (at_ a x * at_ b x)%Qc.
Proof. unfold at_. destruct (x <? 0); [ring | apply nth_vec_mul]. Qed.

Lemma at_ext (a b : ndarray) :
  len a = len b -> (forall x, 0 <= x < len a -> at_ a x = at_ b x) -> a = b.
Proof.
  unfold len. intros E H. apply (nth_ext a b 0%Qc 0%Qc); [lia |].
  intros i Hi. specialize (H (Z.of_nat i)).
  rewrite !at_nth, Nat2Z.id in H by lia. apply H. lia.
Qed.

(** ** The ceiling quotient *)

Lemma py_ceil_div_bounds (a h c : Z) :
  0 < h -> py_ceil_div a h = Some c -> (c - 1) * h < a <= c * h.
Proof.
  unfold py_ceil_div. intros Hh.
  destruct (Z.eqb_spec h 0); [lia |]. intros [= <-].
  pose proof (Z.div_mod (- a) h ltac:(lia)).
  pose proof (Z.mod_pos_bound (- a) h Hh). nia.
Qed.

Lemma py_ceil_div_total (a h : Z) :
  0 < h -> exists c, py_ceil_div a h = Some c.
Proof.
  unfold py_ceil_div. intros Hh. destruct (Z.eqb_spec h 0); [lia | eauto].
Qed.

Lemma mapM_seq {B : Type} (f : nat -> option B) (g : nat -> B) (n k : nat) :
  (forall i, (k <= i < k + n)%nat -> f i = Some (g i)) ->
  mapM f (seq k n) = Some (map g (seq k n)).
Proof.
  revert k. induction n as [| n IH]; intros k H; simpl; [reflexivity |].
  rewrite (H k) by lia. simpl. rewrite IH; [reflexivity |].
  intros i Hi. apply H. lia.
Qed.

Lemma firstn_repeat_le {A : Type} (x : A) (k n : nat) :
  (k <= n)%nat -> firstn k (repeat x n) = repeat x k.
Proof.
  revert n. induction k as [| k IH]; intros [| n] H; simpl; try reflexivity;
    try lia.
  f_equal. apply IH. lia.
Qed.

Lemma skipn_repeat_sub {A : Type} (x : A) (k n : nat) :
  skipn k (repeat x n) = repeat x (n - k).
Proof.
  revert n. induction k as [| k IH]; intros [| n]; simpl; try reflexivity.
  apply IH.
Qed.

(** ** Analysis: the frames of [stana] *)

Lemma stana_geometry_spec (n f h : Z) (synth : bool) :
  0 <= n -> 0 < f -> 0 < h ->
  exists g,
    stana_geometry n f h synth = Some g
    /\ sstart g = (if synth then h - f else 0)
    /\ send g = n
    /\ zpleft g = - sstart g
    /\ zpright g = (nframe g - 1) * h + f - zpleft g - n
    /\ py_ceil_div (n - sstart g) h = Some (nframe g)
    /\ 0 <= nframe g
    /\ (nframe g - 1) * h < n - sstart g <= nframe g * h.
Proof.
  intros Hn Hf Hh. unfold stana_geometry.
  destruct (py_ceil_div_total (n - (if synth then h - f else 0)) h Hh)
    as [c Hc].
  rewrite Hc. simpl. eexists. split; [reflexivity |]. simpl.
  pose proof (py_ceil_div_bounds _ _ _ Hh Hc) as B.
  repeat split; try reflexivity; try assumption; try lia.
  destruct synth; nia.
Qed.

Lemma stana_sigpad_spec (sig : ndarray) (g : geometry) :
  0 <= zpleft g -> (0 < zpleft g -> 0 <= zpright g) ->
  stana_sigpad sig g = Some (padded sig g).
Proof.
  intros Hl Hr. unfold stana_sigpad, padded.
  destruct (Z.gtb_spec (zpleft g) 0) as [Gl | Gl];
    destruct (Z.gtb_spec (zpright g) 0) as [Gr | Gr]; simpl.
  4: { replace (Z.to_nat (zpleft g)) with 0%nat by lia.
       replace (Z.to_nat (zpright g)) with 0%nat by lia.
       simpl. now rewrite app_nil_r. }
  all: assert (Hzr : 0 <= zpright g) by lia;
    pose proof (len_nonneg sig) as Hs;
    unfold np_zeros;
    destruct (Z.ltb_spec (len sig + zpleft g + zpright g) 0); [lia |];
    simpl; unfold set_slice, slice_bounds, norm_index;
    rewrite len_repeat, Z2Nat.id by lia;
    destruct (Z.ltb_spec (zpleft g) 0); [lia |];
    destruct (Z.ltb_spec (len sig + zpleft g + zpright g - zpright g) 0);
      [lia |];
    rewrite (Z.min_l (zpleft g)) by lia;
    rewrite (Z.min_l (len sig + zpleft g + zpright g - zpright g)) by lia;
    rewrite Z.max_r by lia;
    unfold broadcast_to;
    replace (length sig =? Z.to_nat (len sig + zpleft g + zpright g
                                     - zpright g - zpleft g))%nat
      with true by (symmetry; apply Nat.eqb_eq; unfold len; lia);
    simpl;
    rewrite firstn_repeat_le by lia;
    rewrite skipn_repeat_sub;
    replace (Z.to_nat (len sig + zpleft g + zpright g)
             - Z.to_nat (len sig + zpleft g + zpright g - zpright g))%nat
      with (Z.to_nat (zpright g)) by lia;
    reflexivity.
Qed.

Lemma as_strided_spec (buf : ndarray) (N f h : Z) :
  0 <= N -> 0 <= f -> 0 < h -> (0 < N -> (N - 1) * h + f <= len buf) ->
  as_strided buf N f h
  = Some (map (fun i => firstn (Z.to_nat f)
                          (skipn (Z.to_nat (Z.of_nat i * h)) buf))
              (seq 0 (Z.to_nat N))).
Proof.
  intros HN Hf Hh Hb. unfold as_strided.
  destruct (Z.ltb_spec N 0); [lia |]. destruct (Z.ltb_spec f 0); [lia |].
  simpl. apply mapM_seq. intros i Hi. unfold strided_row.
  destruct (Z.leb_spec 0 (Z.of_nat i * h)); [| nia].
  destruct (Z.leb_spec (Z.of_nat i * h + f) (len buf)); [reflexivity | nia].
Qed.

Lemma len_padded (sig : ndarray) (g : geometry) :
  len (padded sig g)
  = Z.max 0 (zpleft g) + len sig + Z.max 0 (zpright g).
Proof. unfold padded. rewrite !len_app, !len_repeat. lia. Qed.

Section Analysis.

Context {hop_t : Type} (hop2hsize : ndarray -> hop_t -> Z).

(** Where the hop does not exceed the window, or in analysis mode, [stana]
    returns: it frames the padded signal at multiples of the hop. *)
Lemma stana_spec (sig : ndarray) (sr : Z) (wind : ndarray) (hop : hop_t)
    (synth : bool) :
  0 < len wind -> 0 < hop2hsize wind hop ->
  synth = false \/ hop2hsize wind hop <= len wind ->
  exists g,
    stana_geometry (len sig) (len wind) (hop2hsize wind hop) synth = Some g
    /\ stana_sigpad sig g = Some (padded sig g)
    /\ stana hop2hsize sig sr wind hop synth
       = Some (map (fun i =>
                      vec_mul (firstn (Z.to_nat (len wind))
                                 (skipn (Z.to_nat (Z.of_nat i * hop2hsize wind hop))
                                        (padded sig g)))
                              wind)
                   (seq 0 (Z.to_nat (nframe g)))).
Proof.
  intros Hf Hh Hmode.
  destruct (stana_geometry_spec (len sig) (len wind) (hop2hsize wind hop)
              synth (len_nonneg sig) Hf Hh)
    as (g & Hg & Hs & He & Hl & Hr & Hc & HN & HB).
  assert (Hzl : 0 <= zpleft g).
  { rewrite Hl, Hs. destruct Hmode as [-> | Hle]; [lia | destruct synth; lia]. }
  assert (Hzr : 0 < zpleft g -> 0 <= zpright g).
  { intros Hp. rewrite Hr. destruct synth; [| lia].
    rewrite Hs in *. nia. }
  pose proof (stana_sigpad_spec sig g Hzl Hzr) as Hpad.
  exists g. split; [exact Hg |]. split; [exact Hpad |].
  unfold stana. rewrite Hg. simpl. rewrite Hpad. simpl.
  rewrite as_strided_spec; try lia.
  - simpl. now rewrite map_map.
  - intros _. rewrite len_padded. lia.
Qed.

(** X1: under the same conditions [stana] returns and the number of its
    frames is [numframes]. *)
Lemma stana_length_numframes (sig : ndarray) (sr : Z) (wind : ndarray)
    (hop : hop_t) (synth : bool) :
  0 < len wind -> 0 < hop2hsize wind hop ->
  synth = false \/ hop2hsize wind hop <= len wind ->
  exists frames,
    stana hop2hsize sig sr wind hop synth = Some frames
    /\ numframes hop2hsize sig sr wind hop synth = Some (len frames).
Proof.
  intros Hf Hh Hmode.
  destruct (stana_spec sig sr wind hop synth Hf Hh Hmode)
    as (g & Hg & _ & Hst).
  destruct (stana_geometry_spec (len sig) (len wind) (hop2hsize wind hop)
              synth (len_nonneg sig) Hf Hh)
    as (g' & Hg' & Hs & He & Hl & Hr & Hc & HN & HB).
  assert (g' = g) by congruence. subst g'.
  eexists. split; [exact Hst |].
  unfold numframes. rewrite Hs in Hc. rewrite Hc. f_equal.
  unfold len. rewrite length_map, length_seq. lia.
Qed.

End Analysis.

(** ** Slices *)

Lemma slice_bounds_range (n : Z) (a b : option Z) (s e : Z) :
  0 <= n -> slice_bounds n a b = (s, e) -> 0 <= s <= e /\ e <= n.
Proof.
  intros Hn. unfold slice_bounds, norm_index. intros [= <- <-].
  destruct a as [a |], b as [b |];
    repeat match goal with
           | |- context [?x <? 0] => destruct (Z.ltb_spec x 0)
           end; lia.
Qed.

Lemma get_slice_head (l : ndarray) (f : Z) :
  0 <= f -> get_slice l None (Some f) = firstn (Z.to_nat f) l.
Proof.
  intros Hf. unfold get_slice, slice_bounds, norm_index.
  destruct (Z.ltb_spec f 0); [lia |]. simpl skipn.
  pose proof (len_nonneg l).
  destruct (Z.le_ge_cases f (len l)) as [H1 | H1].
  - rewrite Z.min_l, Z.max_r by lia. rewrite Z.sub_0_r. reflexivity.
  - rewrite Z.min_r, Z.max_r by lia. rewrite Z.sub_0_r.
    rewrite !firstn_all2; unfold len in *; try reflexivity; lia.
Qed.

Lemma length_get_slice (l : ndarray) (a b : option Z) (s e : Z) :
  slice_bounds (len l) a b = (s, e) ->
  length (get_slice l a b) = Z.to_nat (e - s).
Proof.
  intros H. pose proof (slice_bounds_range _ _ _ _ _ (len_nonneg l) H).
  unfold get_slice. rewrite H. rewrite length_firstn, length_skipn.
  unfold len in *. lia.
Qed.

Lemma iadd_slice_length (l : ndarray) (a b : option Z) (src out : ndarray) :
  iadd_slice l a b src = Some out -> len out = len l.
Proof.
  unfold iadd_slice.
  destruct (slice_bounds (len l) a b) as [s e] eqn:B.
  pose proof (slice_bounds_range _ _ _ _ _ (len_nonneg l) B) as R.
  pose proof (length_get_slice l a b s e B) as G.
  unfold broadcast_to.
  destruct (Nat.eqb_spec (length src) (Z.to_nat (e - s))) as [E | E]; simpl.
  - intros [= <-]. unfold len in *.
    rewrite !length_app, length_vec_add, length_firstn, length_skipn. lia.
  - destruct src as [| x [| y src]]; simpl; try discriminate.
    intros [= <-]. unfold len in *.
    rewrite !length_app, length_vec_add, length_firstn, length_skipn,
      repeat_length. lia.
Qed.

Lemma iadd_slice_fails (l : ndarray) (a b : option Z) (src : ndarray)
    (s e : Z) :
  slice_bounds (len l) a b = (s, e) ->
  len src <> e - s -> len src <> 1 ->
  iadd_slice l a b src = None.
Proof.
  intros B Hd H1. unfold iadd_slice. rewrite B.
  pose proof (slice_bounds_range _ _ _ _ _ (len_nonneg l) B) as R.
  unfold broadcast_to, len in *.
  destruct (Nat.eqb_spec (length src) (Z.to_nat (e - s))) as [E | E];
    [lia |].
  destruct src as [| x [| y src]]; simpl in *; try reflexivity. lia.
Qed.

Lemma iadd_slice_exact (l : ndarray) (a b : option Z) (src : ndarray)
    (s e : Z) :
  slice_bounds (len l) a b = (s, e) -> len src = e - s ->
  exists out,
    iadd_slice l a b src = Some out
    /\ len out = len l
    /\ forall x, 0 <= x ->
         at_ out x
         = (at_ l x
            + (if (s <=? x) && (x <? e) then at_ src (x - s) else 0))%Qc.
Proof.
  intros B Hd.
  pose proof (slice_bounds_range _ _ _ _ _ (len_nonneg l) B) as R.
  pose proof (length_get_slice l a b s e B) as G.
  destruct (iadd_slice l a b src) as [out |] eqn:E.
  2: { unfold iadd_slice in E. rewrite B in E. unfold broadcast_to in E.
       replace (length src =? Z.to_nat (e - s))%nat with true in E
         by (symmetry; apply Nat.eqb_eq; unfold len in Hd; lia).
       discriminate. }
  exists out. split; [reflexivity |].
  split; [eapply iadd_slice_length; eassumption |].
  unfold iadd_slice in E. rewrite B in E. unfold broadcast_to in E.
  replace (length src =? Z.to_nat (e - s))%nat with true in E
    by (symmetry; apply Nat.eqb_eq; unfold len in Hd; lia).
  simpl in E. injection E as <-. intros x Hx.
  assert (Ls : len (firstn (Z.to_nat s) l) = s).
  { unfold len in *. rewrite length_firstn. lia. }
  assert (Lv : len (vec_add (get_slice l a b) src) = e - s).
  { unfold len in *. rewrite length_vec_add. lia. }
  rewrite at_app, Ls, at_app, Lv.
  destruct (Z.leb_spec s x) as [Hsx | Hsx];
    destruct (Z.ltb_spec x s); try lia; simpl.
  - destruct (Z.ltb_spec x e); destruct (Z.ltb_spec (x - s) (e - s));
      try lia.
    + rewrite at_vec_add by (unfold len in Hd; lia).
      unfold get_slice. rewrite B. rewrite at_firstn by lia.
      destruct (Z.ltb_spec (x - s) (e - s)); [| lia].
      rewrite at_skipn by lia. do 2 f_equal. lia.
    + rewrite at_skipn by lia. rewrite Qcplus_0_r. f_equal. lia.
  - rewrite at_firstn by lia.
    destruct (Z.ltb_spec x s); [| lia]. now rewrite Qcplus_0_r.
Qed.

(** ** The loop of [ola] *)

Section OlaLoop.

Variables fsize hsize send : Z.
Hypothesis fsize_pos : 0 < fsize.
Hypothesis hsize_pos : 0 < hsize.

(** One iteration, for a frame at least as long as the window that lies
    inside the output on its right side. *)
Lemma ola_step (frame sout : ndarray) (ii : Z) :
  fsize <= len frame -> len sout = send ->
  0 < ii + fsize <= send ->
  exists out,
    ola_loop fsize hsize send [frame] ii sout = Some out
    /\ len out = send
    /\ forall x, 0 <= x ->
         at_ out x = (at_ sout x + frame_term fsize frame ii x)%Qc.
Proof.
  intros Hfr Hso Hii. simpl.
  rewrite get_slice_head by lia.
  set (frame' := firstn (Z.to_nat fsize) frame).
  assert (Lf : len frame' = fsize).
  { unfold frame', len in *. rewrite length_firstn. lia. }
  assert (Af : forall j, j < fsize -> at_ frame' j = at_ frame j).
  { intros j Hj. unfold frame'. rewrite at_firstn by lia.
    destruct (Z.ltb_spec j fsize); [reflexivity | lia]. }
  destruct (Z.ltb_spec ii 0) as [Neg | Pos].
  - destruct (iadd_slice_exact sout None (Some (ii + fsize))
               (get_slice frame' (Some (- ii)) None) 0 (ii + fsize))
      as (out & E & L & A).
    + unfold slice_bounds, norm_index. rewrite Hso.
      destruct (Z.ltb_spec (ii + fsize) 0); [lia |]. f_equal. lia.
    + unfold len. erewrite length_get_slice.
      2: { rewrite Lf. unfold slice_bounds, norm_index.
           destruct (Z.ltb_spec (- ii) 0); [lia | reflexivity]. }
      lia.
    + rewrite E. simpl. exists out. split; [reflexivity |].
      split; [lia |]. intros x Hx. rewrite (A x Hx). f_equal.
      unfold frame_term.
      destruct (Z.leb_spec 0 x); [| lia]. destruct (Z.leb_spec ii x); [| lia].
      simpl. destruct (Z.ltb_spec x (ii + fsize)); [| reflexivity].
      unfold get_slice. rewrite Lf. unfold slice_bounds, norm_index.
      destruct (Z.ltb_spec (- ii) 0); [lia |].
      rewrite at_firstn by lia.
      destruct (Z.ltb_spec (x - 0) (Z.max (Z.min (- ii) fsize) fsize
                                    - Z.min (- ii) fsize)); [| lia].
      rewrite at_skipn by lia. rewrite Af by lia. f_equal. lia.
  - destruct (Z.gtb_spec (ii + fsize) send) as [Over | In]; [lia |].
    destruct (iadd_slice_exact sout (Some ii) (Some (ii + fsize)) frame'
                ii (ii + fsize)) as (out & E & L & A).
    + unfold slice_bounds, norm_index. rewrite Hso.
      destruct (Z.ltb_spec ii 0); [lia |].
      destruct (Z.ltb_spec (ii + fsize) 0); [lia |]. f_equal; lia.
    + lia.
    + rewrite E. simpl. exists out. split; [reflexivity |].
      split; [lia |]. intros x Hx. rewrite (A x Hx). f_equal.
      unfold frame_term.
      destruct ((ii <=? x) && (x <? ii + fsize)) eqn:G; [| reflexivity].
      apply andb_true_iff in G as [G1 G2].
      apply Z.leb_le in G1. apply Z.ltb_lt in G2. apply Af. lia.
Qed.

Lemma ola_loop_cons (frame : ndarray) (rest : list ndarray) (ii : Z)
    (sout : ndarray) :
  ola_loop fsize hsize send (frame :: rest) ii sout
  = (sout' <- ola_loop fsize hsize send [frame] ii sout ;;
     ola_loop fsize hsize send rest (ii + hsize) sout').
Proof.
  simpl.
  destruct (if ii <? 0 then _ else _) as [sout' |]; reflexivity.
Qed.

(** The whole loop, for frames at least as long as the window whose last
    one ends inside the output: every frame is added at its position. *)
Lemma ola_loop_spec (sframes : list ndarray) (ii : Z) (sout : ndarray) :
  Forall (fun frame => fsize <= len frame) sframes ->
  len sout = send -> 0 < ii + fsize ->
  ii + len sframes * hsize - hsize + fsize <= send ->
  exists out,
    ola_loop fsize hsize send sframes ii sout = Some out
    /\ len out = send
    /\ forall x, 0 <= x ->
         at_ out x = (at_ sout x + ola_sum fsize hsize sframes ii x)%Qc.
Proof.
  revert ii sout. induction sframes as [| frame rest IH];
    intros ii sout Hall Hso Hii Hend.
  - exists sout. split; [reflexivity |]. split; [assumption |].
    intros x _. simpl. now rewrite Qcplus_0_r.
  - inversion_clear Hall as [| ? ? Hfr Hrest].
    assert (Hl : len (frame :: rest) = len rest + 1)
      by (unfold len; simpl length; lia).
    rewrite Hl in Hend. pose proof (len_nonneg rest).
    destruct (ola_step frame sout ii Hfr Hso ltac:(nia))
      as (mid & E & L & A).
    destruct (IH (ii + hsize) mid Hrest L ltac:(lia) ltac:(nia))
      as (out & E' & L' & A').
    exists out. rewrite ola_loop_cons, E. simpl.
    split; [exact E' |]. split; [exact L' |].
    intros x Hx. rewrite (A' x Hx), (A x Hx). simpl. ring.
Qed.

(** A frame shorter than the window stops the loop with an error, unless
    the part of it that is added has exactly one sample. *)
Lemma ola_loop_short_frame (sframes : list ndarray) (ii : Z) (sout : ndarray)
    (k : nat) (frame : ndarray) :
  len sout = send -> 0 < ii + fsize ->
  ii + len sframes * hsize - hsize + fsize <= send ->
  nth_error sframes k = Some frame ->
  len frame < fsize ->
  Z.max 0 (len frame + Z.min 0 (ii + Z.of_nat k * hsize)) <> 1 ->
  ola_loop fsize hsize send sframes ii sout = None.
Proof.
  revert ii sout k. induction sframes as [| fr rest IH];
    intros ii sout k Hso Hii Hend Hk Hshort Hone.
  - destruct k; discriminate.
  - assert (Hl : len (fr :: rest) = len rest + 1)
      by (unfold len; simpl length; lia).
    rewrite Hl in Hend. pose proof (len_nonneg rest).
    rewrite ola_loop_cons.
    destruct k as [| k].
    + injection Hk as ->.
      replace (ola_loop fsize hsize send [frame] ii sout) with (@None ndarray);
        [reflexivity |].
      symmetry. simpl. pose proof (len_nonneg frame) as Hm.
      rewrite get_slice_head by lia.
      rewrite firstn_all2 by (unfold len in *; lia).
      replace (ii + Z.of_nat 0 * hsize) with ii in Hone by lia.
      destruct (Z.ltb_spec ii 0) as [Neg | Pos].
      * erewrite iadd_slice_fails with (s := 0) (e := ii + fsize);
          [reflexivity | | |].
        -- unfold slice_bounds, norm_index. rewrite Hso.
           destruct (Z.ltb_spec (ii + fsize) 0); [lia |]. f_equal. nia.
        -- unfold len at 1. erewrite length_get_slice by reflexivity.
           unfold norm_index.
           destruct (Z.ltb_spec (- ii) 0); lia.
        -- unfold len at 1. erewrite length_get_slice by reflexivity.
           unfold norm_index.
           destruct (Z.ltb_spec (- ii) 0); lia.
      * destruct (Z.gtb_spec (ii + fsize) send) as [Over | In]; [nia |].
        erewrite iadd_slice_fails with (s := ii) (e := ii + fsize);
          [reflexivity | | lia | lia].
        unfold slice_bounds, norm_index. rewrite Hso.
        destruct (Z.ltb_spec ii 0); [lia |].
        destruct (Z.ltb_spec (ii + fsize) 0); [lia |]. f_equal; nia.
    + simpl in Hk.
      destruct (ola_loop fsize hsize send [fr] ii sout) as [mid |] eqn:E;
        [| reflexivity].
      simpl. apply (IH (ii + hsize) mid k); try assumption; try nia.
      simpl in E.
      destruct (if ii <? 0 then _ else _) as [mid' |] eqn:E1;
        [| discriminate].
      simpl in E. injection E as <-.
      destruct (ii <? 0);
        [| destruct (ii + fsize >? send)];
        apply iadd_slice_length in E1; lia.
Qed.

End OlaLoop.

(** ** Finite sums *)

Lemma sum_from_ext (g g' : Z -> Qc) (s : Z) (n : nat) :
  (forall i, s <= i < s + Z.of_nat n -> g i = g' i) ->
  sum_from g s n = sum_from g' s n.
Proof.
  revert s. induction n as [| n IH]; intros s H; simpl; [reflexivity |].
  rewrite (H s) by lia. f_equal. apply IH. intros i Hi. apply H. lia.
Qed.

Lemma sum_from_shift (g : Z -> Qc) (s d : Z) (n : nat) :
  sum_from g (s + d) n = sum_from (fun i => g (i + d)) s n.
Proof.
  revert s. induction n as [| n IH]; intros s; simpl; [reflexivity |].
  f_equal. rewrite <- IH. f_equal. lia.
Qed.

Lemma sum_from_snoc (g : Z -> Qc) (s : Z) (n : nat) :
  sum_from g s (S n) = (sum_from g s n + g (s + Z.of_nat n)%Z)%Qc.
Proof.
  revert s. induction n as [| n IH]; intros s.
  - simpl. rewrite Z.add_0_r. ring.
  - change (sum_from g s (S (S n)))
      with (g s + sum_from g (s + 1)%Z (S n))%Qc.
    rewrite IH. simpl sum_from.
    replace (s + 1 + Z.of_nat n) with (s + Z.of_nat (S n)) by lia. ring.
Qed.

Lemma sum_from_zero (g : Z -> Qc) (s : Z) (n : nat) :
  (forall i, s <= i -> g i = 0%Qc) -> sum_from g s n = 0%Qc.
Proof.
  revert s. induction n as [| n IH]; intros s H; simpl; [reflexivity |].
  rewrite (H s) by lia. rewrite IH; [ring |]. intros i Hi. apply H. lia.
Qed.

Lemma sum_from_add (g : Z -> Qc) (s : Z) (n k : nat) :
  sum_from g s (n + k)
  = (sum_from g s n + sum_from g (s + Z.of_nat n)%Z k)%Qc.
Proof.
  revert s. induction n as [| n IH]; intros s.
  - simpl. rewrite Z.add_0_r. ring.
  - change (S n + k)%nat with (S (n + k)).
    change (sum_from g s (S (n + k)))
      with (g s + sum_from g (s + 1)%Z (n + k))%Qc.
    change (sum_from g s (S n)) with (g s + sum_from g (s + 1)%Z n)%Qc.
    rewrite IH.
    replace (s + 1 + Z.of_nat n) with (s + Z.of_nat (S n)) by lia. ring.
Qed.

(** Two sums of a function that vanishes beyond both ranges agree. *)
Lemma sum_from_tails (g : Z -> Qc) (s : Z) (n m : nat) :
  (forall i, s + Z.of_nat n <= i -> g i = 0%Qc) ->
  (forall i, s + Z.of_nat m <= i -> g i = 0%Qc) ->
  sum_from g s n = sum_from g s m.
Proof.
  intros Hn Hm. destruct (Nat.le_ge_cases n m) as [L | L].
  - replace m with (n + (m - n))%nat by lia.
    rewrite sum_from_add, (sum_from_zero g (s + Z.of_nat n)) by assumption.
    ring.
  - replace n with (m + (n - m))%nat by lia.
    rewrite sum_from_add, (sum_from_zero g (s + Z.of_nat m)) by assumption.
    ring.
Qed.

Lemma sum_from_rev (g : Z -> Qc) (n : nat) :
  sum_from g 0 n = sum_from (fun i => g (Z.of_nat n - 1 - i)) 0 n.
Proof.
  induction n as [| n IH]; [reflexivity |].
  rewrite sum_from_snoc, IH.
  transitivity
    (g (Z.of_nat (S n) - 1 - 0)%Z
     + sum_from (fun i => g (Z.of_nat (S n) - 1 - i)%Z) (0 + 1)%Z n)%Qc;
    [| reflexivity].
  rewrite (sum_from_shift _ 0 1), Qcplus_comm.
  f_equal; [f_equal; lia |].
  apply sum_from_ext. intros i _. f_equal. lia.
Qed.

Lemma sum_from_scale (c : Qc) (g : Z -> Qc) (s : Z) (n : nat) :
  sum_from (fun i => c * g i)%Qc s n = (c * sum_from g s n)%Qc.
Proof.
  revert s. induction n as [| n IH]; intros s; simpl; [ring |].
  rewrite IH. ring.
Qed.

(** ** Constant overlap-add *)

Lemma cola_phase (wind : ndarray) (hsize c : Z) :
  cola wind hsize = true -> 0 <= c < hsize -> cola_sum wind hsize c = 1%Qc.
Proof.
  unfold cola. intros H Hc. rewrite forallb_forall in H.
  specialize (H (Z.to_nat c)). rewrite Z2Nat.id in H by lia.
  apply Qc_eq_bool_correct, H, in_seq. lia.
Qed.

(** The window samples that meet at one output position add up to 1. *)
Lemma cola_frames_sum (wind : ndarray) (hsize y : Z) (n : nat) :
  0 < hsize -> cola wind hsize = true ->
  0 <= y < Z.of_nat n * hsize -> len wind <= y + hsize ->
  sum_from (fun i => at_ wind (y - i * hsize)) 0 n = 1%Qc.
Proof.
  intros Hh Hcola Hy Hw.
  pose proof (Z.div_mod y hsize ltac:(lia)) as Hdm.
  pose proof (Z.mod_pos_bound y hsize Hh) as Hm.
  set (q := y / hsize) in *. set (c := y mod hsize) in *.
  assert (Hq : 0 <= q < Z.of_nat n) by nia.
  rewrite <- (cola_phase wind hsize c Hcola Hm). unfold cola_sum.
  rewrite (sum_from_tails _ 0 n (Z.to_nat (q + 1))).
  2, 3: intros i Hi; apply at_neg; nia.
  rewrite sum_from_rev.
  rewrite (sum_from_tails _ 0 (length wind) (Z.to_nat (q + 1))).
  2, 3: intros i Hi; apply at_overflow; unfold len in *; nia.
  apply sum_from_ext. intros i Hi. f_equal. nia.
Qed.

(** ** Synthesis: [ola] when its start offset is [hsize - fsize] *)

Section Synthesis.

Context {hop_t : Type} (hop2hsize : ndarray -> hop_t -> Z).

(** With the start offset [hsize - fsize] and frames at least as long as
    the window, [ola] returns [hsize * nframe] samples: the sums of the
    frames placed at [hsize - fsize + i*hsize]. *)
Lemma ola_exact_spec (sframes : list ndarray) (sr : Z) (wind : ndarray)
    (hop : hop_t) :
  0 < len wind -> 0 < hop2hsize wind hop ->
  ola_sstart (len wind) (hop2hsize wind hop)
    = Some (hop2hsize wind hop - len wind) ->
  Forall (fun frame => len wind <= len frame) sframes ->
  exists out,
    ola hop2hsize sframes sr wind hop = Some out
    /\ len out = hop2hsize wind hop * len sframes
    /\ forall x, 0 <= x ->
         at_ out x
         = ola_sum (len wind) (hop2hsize wind hop) sframes
             (hop2hsize wind hop - len wind) x.
Proof.
  intros Hf Hh Hs Hall. unfold ola. rewrite Hs. simpl.
  set (h := hop2hsize wind hop) in *. set (f := len wind) in *.
  pose proof (len_nonneg sframes) as HN.
  set (send := h * (len sframes - 1) + f + (h - f)).
  assert (Hsend : send = h * len sframes) by (unfold send; lia).
  unfold np_zeros. destruct (Z.ltb_spec send 0); [nia |]. simpl.
  destruct (ola_loop_spec f h send Hf Hh sframes (h - f)
              (repeat 0%Qc (Z.to_nat send)) Hall)
    as (out & E & L & A).
  - rewrite len_repeat. lia.
  - lia.
  - nia.
  - exists out. split; [exact E |]. split; [lia |].
    intros x Hx. rewrite (A x Hx), at_repeat_zero. ring.
Qed.

(** Where the float formula of the start offset is exact, the length of
    the result is [hsize * nframe]. *)
Lemma ola_length_exact (sframes : list ndarray) (sr : Z) (wind : ndarray)
    (hop : hop_t) :
  0 < len wind -> 0 < hop2hsize wind hop ->
  ola_sstart (len wind) (hop2hsize wind hop)
    = Some (hop2hsize wind hop - len wind) ->
  Forall (fun frame => len wind <= len frame) sframes ->
  option_map len (ola hop2hsize sframes sr wind hop)
  = Some (hop2hsize wind hop * len sframes).
Proof.
  intros Hf Hh Hs Hall.
  destruct (ola_exact_spec sframes sr wind hop Hf Hh Hs Hall)
    as (out & E & L & _).
  rewrite E. simpl. now f_equal.
Qed.

(** Where the float formula of the start offset is exact, no frames give
    the empty signal. *)
Lemma ola_empty_exact (sr : Z) (wind : ndarray) (hop : hop_t) :
  0 < len wind -> 0 < hop2hsize wind hop ->
  ola_sstart (len wind) (hop2hsize wind hop)
    = Some (hop2hsize wind hop - len wind) ->
  ola hop2hsize [] sr wind hop = Some [].
Proof.
  intros Hf Hh Hs.
  destruct (ola_exact_spec [] sr wind hop Hf Hh Hs (Forall_nil _))
    as (out & E & L & _).
  rewrite E. f_equal. destruct out; [reflexivity |].
  unfold len in L. simpl in L. lia.
Qed.

(** C8 (amended): [ola] does not check the frame lengths on entry.  When
    its start offset is [hsize - fsize], a frame [k] shorter than the
    window makes it raise from inside the loop (nothing is returned)
    unless the part of that frame which is added, of
    [max(0, len(frame) + min(0, hsize - fsize + k*hsize))] samples, has
    exactly one sample, which numpy broadcasts. *)
Theorem ola_short_frame_raises (sframes : list ndarray) (sr : Z)
    (wind : ndarray) (hop : hop_t) (k : nat) (frame : ndarray) :
  0 < len wind -> 0 < hop2hsize wind hop ->
  ola_sstart (len wind) (hop2hsize wind hop)
    = Some (hop2hsize wind hop - len wind) ->
  nth_error sframes k = Some frame ->
  len frame < len wind ->
  Z.max 0 (len frame
           + Z.min 0 (hop2hsize wind hop - len wind
                      + Z.of_nat k * hop2hsize wind hop)) <> 1 ->
  ola hop2hsize sframes sr wind hop = None.
Proof.
  intros Hf Hh Hs Hk Hshort Hone. unfold ola. rewrite Hs. simpl.
  set (h := hop2hsize wind hop) in *. set (f := len wind) in *.
  assert (HN : 1 <= len sframes).
  { destruct sframes; [destruct k; discriminate |].
    unfold len. simpl length. lia. }
  set (send := h * (len sframes - 1) + f + (h - f)).
  unfold np_zeros. destruct (Z.ltb_spec send 0); [unfold send in *; nia |].
  simpl.
  apply (ola_loop_short_frame f h send Hf Hh sframes (h - f) _ k frame);
    try assumption.
  - rewrite len_repeat. lia.
  - lia.
  - unfold send. nia.
Qed.

End Synthesis.

Lemma ola_short_frame_raises_witness :
  ola int_hop [zs [1; 2; 3; 4]; zs [5; 6]] 1 (ones 4) 2 = None.
Proof.
  apply (ola_short_frame_raises int_hop [zs [1; 2; 3; 4]; zs [5; 6]] 1
           (ones 4) 2 1%nat (zs [5; 6]));
    try (vm_compute; reflexivity).
  vm_compute. discriminate.
Defined.

(** ** Round trip *)

Lemma ola_sum_map (f h p0 x : Z) (F : Z -> ndarray) (n k : nat) :
  ola_sum f h (map (fun i => F (Z.of_nat i)) (seq k n))
    (p0 + Z.of_nat k * h) x
  = sum_from (fun i => frame_term f (F i) (p0 + i * h) x) (Z.of_nat k) n.
Proof.
  revert k. induction n as [| n IH]; intros k; [reflexivity |].
  simpl map. simpl ola_sum. simpl sum_from. f_equal.
  replace (p0 + Z.of_nat k * h + h) with (p0 + Z.of_nat (S k) * h) by lia.
  rewrite IH. f_equal. lia.
Qed.

Section RoundTrip.

Context {hop_t : Type} (hop2hsize : ndarray -> hop_t -> Z).

(** C1 (amended): for a window that satisfies constant overlap-add (with
    constant 1) at a hop that does not exceed its length, and where the
    start offset of [ola] evaluates to [hsize - fsize], [ola] applied to the
    frames of [stana] called with [synth=True] returns the signal followed
    by [hsize * nframe - len(signal)] zeros. *)
Theorem ola_stana_synth_roundtrip (sig : ndarray) (sr : Z) (wind : ndarray)
    (hop : hop_t) :
  0 < hop2hsize wind hop -> hop2hsize wind hop <= len wind ->
  ola_sstart (len wind) (hop2hsize wind hop)
    = Some (hop2hsize wind hop - len wind) ->
  cola wind (hop2hsize wind hop) = true ->
  exists N,
    numframes hop2hsize sig sr wind hop true = Some N
    /\ len sig <= hop2hsize wind hop * N
    /\ roundtrip hop2hsize sig sr wind hop true
       = Some (sig ++ repeat 0%Qc
                        (Z.to_nat (hop2hsize wind hop * N - len sig))).
Proof.
  intros Hh Hle Hs Hcola.
  assert (Hf : 0 < len wind) by lia.
  destruct (stana_spec hop2hsize sig sr wind hop true Hf Hh (or_intror Hle))
    as (g & Hg & _ & Hst).
  destruct (stana_geometry_spec (len sig) (len wind) (hop2hsize wind hop)
              true (len_nonneg sig) Hf Hh)
    as (g' & Hg' & Hgs & He & Hl & Hr & Hc & HN & HB).
  assert (g' = g) by congruence. subst g'.
  set (h := hop2hsize wind hop) in *. set (f := len wind) in *.
  set (n := len sig) in *. set (N := nframe g) in *.
  rewrite Hgs in Hl, Hc, HB. rewrite Hl in Hr.
  assert (HP : len (padded sig g) = (N - 1) * h + f).
  { rewrite len_padded. fold n. lia. }
  set (F := fun i : Z =>
              vec_mul (firstn (Z.to_nat f)
                         (skipn (Z.to_nat (i * h)) (padded sig g))) wind).
  change (stana hop2hsize sig sr wind hop true
          = Some (map (fun i => F (Z.of_nat i)) (seq 0 (Z.to_nat N))))
    in Hst.
  assert (Hall : Forall (fun frame => f <= len frame)
                   (map (fun i => F (Z.of_nat i)) (seq 0 (Z.to_nat N)))).
  { apply Forall_forall. intros fr Hin. apply in_map_iff in Hin
      as (i & <- & Hi). apply in_seq in Hi. unfold F, len in *.
    rewrite length_vec_mul, length_firstn, length_skipn. nia. }
  destruct (ola_exact_spec hop2hsize _ sr wind hop Hf Hh Hs Hall)
    as (out & E & L & A).
  fold h in L, A. fold f in A.
  assert (LN : len (map (fun i => F (Z.of_nat i)) (seq 0 (Z.to_nat N))) = N).
  { unfold len. rewrite length_map, length_seq. lia. }
  rewrite LN in L.
  exists N. split; [exact Hc |]. split; [lia |].
  unfold roundtrip. rewrite Hst. simpl. rewrite E. f_equal.
  apply at_ext.
  { rewrite len_app, len_repeat. fold n. lia. }
  intros x Hx. rewrite (A x) by lia.
  pose proof (ola_sum_map f h (h - f) x F (Z.to_nat N) 0) as M.
  change (Z.of_nat 0) with 0 in M. rewrite Z.mul_0_l, Z.add_0_r in M.
  rewrite M. clear M.
  rewrite (sum_from_ext _
             (fun i => (at_ (padded sig g) (x + f - h)
                        * at_ wind (x + f - h - i * h))%Qc)).
  2: { intros i Hi. unfold frame_term, F. rewrite at_vec_mul.
       destruct (Z.leb_spec (h - f + i * h) x) as [G1 | G1];
         destruct (Z.ltb_spec x (h - f + i * h + f)) as [G2 | G2]; simpl.
       - rewrite at_firstn by lia.
         destruct (Z.ltb_spec (x - (h - f + i * h)) f); [| lia].
         rewrite at_skipn by nia. f_equal; f_equal; lia.
       - rewrite (at_overflow wind (x + f - h - i * h)) by (fold f; lia).
         ring.
       - rewrite (at_neg wind (x + f - h - i * h)) by lia. ring.
       - rewrite (at_neg wind (x + f - h - i * h)) by lia. ring. }
  rewrite sum_from_scale.
  assert (AP : at_ (padded sig g) (x + f - h) = at_ sig x).
  { unfold padded. rewrite at_app, len_repeat.
    destruct (Z.ltb_spec (x + f - h) (Z.of_nat (Z.to_nat (zpleft g))));
      [lia |].
    replace (x + f - h - Z.of_nat (Z.to_nat (zpleft g))) with x by lia.
    rewrite at_app. fold n.
    destruct (Z.ltb_spec x n); [reflexivity |].
    rewrite at_repeat_zero. symmetry. apply at_overflow. fold n. lia. }
  rewrite AP, at_app. fold n.
  destruct (Z.ltb_spec x n) as [In | Out].
  - rewrite (cola_frames_sum wind h (x + f - h) (Z.to_nat N) Hh Hcola).
    + ring.
    + nia.
    + fold f. lia.
  - rewrite at_repeat_zero, (at_overflow sig x) by (fold n; lia). ring.
Qed.

End RoundTrip.

Lemma ola_stana_synth_roundtrip_witness :
  exists N,
    numframes int_hop (zs [1; 2; 3; 4; 5]) 16000 (halves 8) 4 true = Some N
    /\ len (zs [1; 2; 3; 4; 5]) <= int_hop (halves 8) 4 * N
    /\ roundtrip int_hop (zs [1; 2; 3; 4; 5]) 16000 (halves 8) 4 true
       = Some (zs [1; 2; 3; 4; 5]
                 ++ repeat 0%Qc
                      (Z.to_nat (int_hop (halves 8) 4 * N
                                 - len (zs [1; 2; 3; 4; 5])))).
Proof.
  apply (ola_stana_synth_roundtrip int_hop (zs [1; 2; 3; 4; 5]) 16000
           (halves 8) 4); vm_compute; try reflexivity; discriminate.
Defined.

(** ** Frame count, padding and frame centers *)

Lemma Qc_of_Z_add (a b : Z) : Qc_of_Z (a + b) = (Qc_of_Z a + Qc_of_Z b)%Qc.
Proof.
  unfold Qc_of_Z. apply Qc_is_canon. unfold Qcplus, Q2Qc. cbn [this].
  rewrite !Qred_correct, inject_Z_plus. reflexivity.
Qed.

Lemma Qc_of_Z_mul (a b : Z) : Qc_of_Z (a * b) = (Qc_of_Z a * Qc_of_Z b)%Qc.
Proof.
  unfold Qc_of_Z. apply Qc_is_canon. unfold Qcmult, Q2Qc. cbn [this].
  rewrite !Qred_correct, inject_Z_mult. reflexivity.
Qed.

Lemma arange_up_count (stop step : Z) (c fuel : nat) (x : Z) :
  0 < step ->
  (Z.of_nat c - 1) * step < stop - x <= Z.of_nat c * step ->
  (Z.to_nat (stop - x) <= fuel)%nat ->
  arange_up fuel x stop step
  = map (fun i => x + Z.of_nat i * step) (seq 0 c).
Proof.
  intros Hs. revert fuel x. induction c as [| c IH]; intros fuel x B F.
  - destruct fuel; simpl; [reflexivity |].
    destruct (Z.ltb_spec x stop); [lia | reflexivity].
  - destruct fuel as [| fuel]; [nia |]. simpl.
    destruct (Z.ltb_spec x stop); [| nia].
    f_equal; [lia |].
    rewrite (IH fuel (x + step)) by nia.
    rewrite <- seq_shift, map_map. apply map_ext. intros i. lia.
Qed.

(** [np.arange(start, stop, step)] with a positive step has
    [ceil((stop - start) / step)] elements [start + i*step]. *)
Lemma np_arange_spec (start stop step c : Z) :
  0 < step -> py_ceil_div (stop - start) step = Some c -> 0 <= c ->
  np_arange start stop step
  = Some (map (fun i => start + Z.of_nat i * step) (seq 0 (Z.to_nat c))).
Proof.
  intros Hs Hc Hc0. unfold np_arange.
  destruct (Z.eqb_spec step 0); [lia |].
  destruct (Z.ltb_spec 0 step); [| lia].
  f_equal. pose proof (py_ceil_div_bounds _ _ _ Hs Hc).
  apply arange_up_count; [assumption | rewrite Z2Nat.id by lia; lia | lia].
Qed.

(** C7: [stcenters] returns as many values as [numframes] counts, the
    i-th being [(sstart + i*hsize + (fsize-1)/2) / sr] with
    [sstart = hsize - fsize] when [synth] and 0 otherwise; for a window of
    length 4, hop 2, rate 1 and 6 samples in analysis mode the first center
    is 3/2. *)
Theorem stcenters_spec :
  (forall (hop_t : Type) (hop2hsize : ndarray -> hop_t -> Z)
          (sig : ndarray) (sr : Z) (wind : ndarray) (hop : hop_t)
          (synth : bool),
      0 < len wind -> 0 < hop2hsize wind hop -> 0 < sr ->
      exists centers N,
        stcenters hop2hsize sig sr wind hop synth = Some centers
        /\ numframes hop2hsize sig sr wind hop synth = Some N
        /\ len centers = N
        /\ forall i, 0 <= i < N ->
             nth_error centers (Z.to_nat i)
             = Some ((Qc_of_Z (if synth
                               then hop2hsize wind hop - len wind else 0)
                      + Qc_of_Z i * Qc_of_Z (hop2hsize wind hop)
                      + (Qc_of_Z (len wind) - 1) / Qc_of_Z 2)
                     / Qc_of_Z sr)%Qc)
  /\ option_map (fun centers => hd 0%Qc centers)
       (stcenters int_hop (zs [1; 2; 3; 4; 5; 6]) 1 (ones 4) 2 false)
     = Some (Qc_of_Z 3 / Qc_of_Z 2)%Qc.
Proof.
  split.
  - intros hop_t hop2hsize sig sr wind hop synth Hf Hh Hsr.
    destruct (stana_geometry_spec (len sig) (len wind) (hop2hsize wind hop)
                synth (len_nonneg sig) Hf Hh)
      as (g & Hg & Hs & He & Hl & Hr & Hc & HN & HB).
    rewrite Hs in Hc.
    unfold stcenters, numframes.
    rewrite (np_arange_spec _ _ _ _ Hh Hc HN). simpl.
    eexists. exists (nframe g). split; [reflexivity |].
    split; [exact Hc |]. split.
    + unfold len. rewrite !length_map, length_seq. lia.
    + intros i Hi. rewrite map_map.
      rewrite nth_error_map.
      rewrite nth_error_nth' with (d := 0%nat) by (rewrite length_seq; lia).
      rewrite seq_nth by lia. simpl. f_equal.
      rewrite Z2Nat.id by lia.
      rewrite Qc_of_Z_add, Qc_of_Z_mul.
      replace (len wind - 1) with (len wind + (-1)) by lia.
      rewrite Qc_of_Z_add.
      replace (Qc_of_Z (-1)) with (- (1))%Qc
        by (apply Qc_is_canon; reflexivity).
      reflexivity.
  - apply (f_equal (option_map (fun centers => hd 0%Qc centers))
             (x := stcenters int_hop (zs [1; 2; 3; 4; 5; 6]) 1 (ones 4) 2 false)
             (y := Some [ (Qc_of_Z 3 / Qc_of_Z 2)%Qc;
                          (Qc_of_Z 7 / Qc_of_Z 2)%Qc;
                          (Qc_of_Z 11 / Qc_of_Z 2)%Qc ])).
    by_computation.
Qed.

Lemma stcenters_spec_witness :
  exists centers N,
    stcenters int_hop (zs [1; 2; 3; 4; 5; 6]) 1 (ones 4) 2 false
      = Some centers
    /\ numframes int_hop (zs [1; 2; 3; 4; 5; 6]) 1 (ones 4) 2 false = Some N
    /\ len centers = N
    /\ forall i, 0 <= i < N ->
         nth_error centers (Z.to_nat i)
         = Some ((Qc_of_Z 0
                  + Qc_of_Z i * Qc_of_Z (int_hop (ones 4) 2)
                  + (Qc_of_Z (len (ones 4)) - 1) / Qc_of_Z 2)
                 / Qc_of_Z 1)%Qc.
Proof.
  apply (proj1 stcenters_spec Z int_hop (zs [1; 2; 3; 4; 5; 6]) 1 (ones 4) 2
           false); vm_compute; reflexivity.
Defined.


(** C9: for an empty signal in analysis mode, a window of positive length
    and a positive hop, [numframes] returns 0 and [stana] returns no frame;
    neither raises. *)
Theorem empty_signal_no_frames {hop_t : Type}
    (hop2hsize : ndarray -> hop_t -> Z) (sr : Z) (wind : ndarray)
    (hop : hop_t) :
  0 < len wind -> 0 < hop2hsize wind hop ->
  numframes hop2hsize [] sr wind hop false = Some 0
  /\ stana hop2hsize [] sr wind hop false = Some [].
Proof.
  intros Hf Hh.
  destruct (stana_spec hop2hsize [] sr wind hop false Hf Hh (or_introl eq_refl))
    as (g & Hg & _ & Hst).
  destruct (stana_geometry_spec (len (@nil Qc)) (len wind)
              (hop2hsize wind hop) false (len_nonneg _) Hf Hh)
    as (g' & Hg' & Hs & He & Hl & Hr & Hc & HN & HB).
  assert (g' = g) by congruence. subst g'.
  assert (HN0 : nframe g = 0) by (rewrite Hs in HB; change (len (@nil Qc)) with 0 in HB; nia).
  split.
  - unfold numframes. rewrite Hs in Hc. rewrite Hc. now f_equal.
  - rewrite Hst, HN0. reflexivity.
Qed.

Lemma empty_signal_no_frames_witness :
  numframes int_hop [] 16000 (ones 4) 2 false = Some 0
  /\ stana int_hop [] 16000 (ones 4) 2 false = Some [].
Proof.
  apply (empty_signal_no_frames int_hop 16000 (ones 4) 2);
    vm_compute; reflexivity.
Defined.

(** C6 (amended): in analysis mode, and in synthesis-aligned mode when the
    hop does not exceed the window, [zpleft] is [max(0, -sstart)] and the
    buffer that is framed is the signal between [max(0, -sstart)] zeros and
    [max(0, (nframe-1)*hsize + fsize - zpleft - ssize)] zeros; the variable
    [zpright] is that clamped count when the hop does not exceed the
    window. *)
Theorem stana_zero_padding {hop_t : Type} (hop2hsize : ndarray -> hop_t -> Z)
    (sig wind : ndarray) (hop : hop_t) (synth : bool) :
  0 < len wind -> 0 < hop2hsize wind hop ->
  synth = false \/ hop2hsize wind hop <= len wind ->
  exists g,
    stana_geometry (len sig) (len wind) (hop2hsize wind hop) synth = Some g
    /\ zpleft g = Z.max 0 (- sstart g)
    /\ (hop2hsize wind hop <= len wind ->
        zpright g
        = Z.max 0 ((nframe g - 1) * hop2hsize wind hop + len wind
                   - zpleft g - len sig))
    /\ stana_sigpad sig g
       = Some (repeat 0%Qc (Z.to_nat (Z.max 0 (- sstart g)))
                 ++ sig
                 ++ repeat 0%Qc
                      (Z.to_nat
                         (Z.max 0 ((nframe g - 1) * hop2hsize wind hop
                                   + len wind - Z.max 0 (- sstart g)
                                   - len sig)))).
Proof.
  intros Hf Hh Hmode.
  destruct (stana_spec hop2hsize sig 0 wind hop synth Hf Hh Hmode)
    as (g & Hg & Hpad & _).
  destruct (stana_geometry_spec (len sig) (len wind) (hop2hsize wind hop)
              synth (len_nonneg sig) Hf Hh)
    as (g' & Hg' & Hs & He & Hl & Hr & Hc & HN & HB).
  assert (g' = g) by congruence. subst g'.
  assert (Hzl : 0 <= zpleft g).
  { rewrite Hl, Hs. destruct Hmode as [-> | Hle]; [lia | destruct synth; lia]. }
  exists g. split; [exact Hg |]. split; [lia |]. split.
  - intros Hle. rewrite <- Hr. rewrite Hr at 1. rewrite Hl, Hs in *.
    destruct synth; nia.
  - rewrite Hpad. unfold padded. do 3 f_equal; [f_equal; lia |].
    f_equal. rewrite <- Hl. rewrite (Z.max_r 0 (zpleft g)) by lia.
    rewrite <- Hr. lia.
Qed.

Lemma stana_zero_padding_witness :
  exists g,
    stana_geometry (len (zs [1; 2; 3; 4; 5])) (len (ones 4))
      (int_hop (ones 4) 2) true = Some g
    /\ zpleft g = Z.max 0 (- sstart g)
    /\ (int_hop (ones 4) 2 <= len (ones 4) ->
        zpright g
        = Z.max 0 ((nframe g - 1) * int_hop (ones 4) 2 + len (ones 4)
                   - zpleft g - len (zs [1; 2; 3; 4; 5])))
    /\ stana_sigpad (zs [1; 2; 3; 4; 5]) g
       = Some (repeat 0%Qc (Z.to_nat (Z.max 0 (- sstart g)))
                 ++ zs [1; 2; 3; 4; 5]
                 ++ repeat 0%Qc
                      (Z.to_nat
                         (Z.max 0 ((nframe g - 1) * int_hop (ones 4) 2
                                   + len (ones 4) - Z.max 0 (- sstart g)
                                   - len (zs [1; 2; 3; 4; 5]))))).
Proof.
  apply (stana_zero_padding int_hop (zs [1; 2; 3; 4; 5]) (ones 4) 2 true).
  - vm_compute; reflexivity.
  - vm_compute; reflexivity.
  - right. vm_compute. discriminate.
Defined.

(** ** Evaluations at concrete inputs *)

(** C3 (as stated, default flag): the first frame of
    [stana([1,2,3,4,5], wind=ones(4), hop=2)] is [1,2,3,4], it is not
    left-padded. *)
Lemma stana_default_first_frame_not_padded :
  stana int_hop (zs [1; 2; 3; 4; 5]) 1 (ones 4) 2 false
    = Some [zs [1; 2; 3; 4]; zs [3; 4; 5; 0]; zs [5; 0; 0; 0]]
  /\ option_map (fun frames => hd [] frames)
       (stana int_hop (zs [1; 2; 3; 4; 5]) 1 (ones 4) 2 false)
     <> Some (zs [0; 0; 1; 2]).
Proof. split; by_computation. Qed.

(** C3 (amended): with [synth=True] the frames of
    [stana([1,2,3,4,5], wind=ones(4), hop=2)] are [0,0,1,2], [1,2,3,4],
    [3,4,5,0], [5,0,0,0]: the first is left-padded with two zeros and the
    last is the trailing sample 5 right-padded with zeros to length 4. *)
Theorem stana_synth_zero_padding :
  stana int_hop (zs [1; 2; 3; 4; 5]) 1 (ones 4) 2 true
    = Some [zs [0; 0; 1; 2]; zs [1; 2; 3; 4]; zs [3; 4; 5; 0]; zs [5; 0; 0; 0]]
  /\ option_map (fun frames => hd [] frames)
       (stana int_hop (zs [1; 2; 3; 4; 5]) 1 (ones 4) 2 true)
     = Some (zs [0; 0; 1; 2])
  /\ option_map (fun frames => last frames [])
       (stana int_hop (zs [1; 2; 3; 4; 5]) 1 (ones 4) 2 true)
     = Some (zs [5] ++ zs [0; 0; 0]).
Proof. repeat split; by_computation. Qed.

(** C4: for window length 10 and hop 9 the float formula of [ola],
    [int(-fsize * (1-hfrac))], evaluates to 0, while [stana] uses
    [hsize - fsize = -1]. *)
Theorem ola_sstart_differs_from_stana :
  ola_sstart 10 9 = Some 0
  /\ option_map sstart (stana_geometry 0 10 9 true) = Some (-1).
Proof. split; vm_compute; reflexivity. Qed.

(** C5: for one frame, window length 10 and hop 9, [ola] returns 10
    samples, not [hsize * nframe = 9]. *)
Theorem ola_length_window10_hop9 :
  option_map len (ola int_hop [ones 10] 1 (ones 10) 9) = Some 10
  /\ 9 * len [ones 10] = 9.
Proof. split; vm_compute; reflexivity. Qed.

(** C10: for window length 10 and hop 9, [ola] of no frames returns one
    zero sample, not the empty signal; for window length 3 and hop 4 it
    raises. *)
Theorem ola_no_frames_window10_hop9 :
  ola int_hop [] 1 (ones 10) 9 = Some [0%Qc]
  /\ ola int_hop [] 1 (ones 3) 4 = None.
Proof. split; by_computation. Qed.

(** C2: for a signal of 9 samples, window length 2, hop 5 and
    [synth=True], [numframes] returns 2 and [stana] raises. *)
Theorem numframes_without_stana_frames :
  numframes int_hop (zs [1; 2; 3; 4; 5; 6; 7; 8; 9]) 1 (ones 2) 5 true = Some 2
  /\ stana int_hop (zs [1; 2; 3; 4; 5; 6; 7; 8; 9]) 1 (ones 2) 5 true = None.
Proof. split; [vm_compute; reflexivity | by_computation]. Qed.

(** C8 (as stated): a frame of one sample under a window of length 2 (hop
    2) is not rejected: it is broadcast over both output samples. *)
Lemma ola_accepts_short_frame :
  ola int_hop [zs [7]] 1 (ones 2) 2 = Some (zs [7; 7])
  /\ len (zs [7]) < len (ones 2).
Proof. split; [by_computation | vm_compute; reflexivity]. Qed.

(** C1 (as stated, default flags): the window of eight halves satisfies
    constant overlap-add at hop 4, and the round trip of [1..8] is
    [5,6,7,8,0,0,0,0]; the round trip of [1..5] has 8 samples. *)
Lemma roundtrip_default_flag_fails :
  cola (halves 8) 4 = true
  /\ roundtrip int_hop (zs [1; 2; 3; 4; 5; 6; 7; 8]) 1 (halves 8) 4 false
     = Some (zs [5; 6; 7; 8; 0; 0; 0; 0])
  /\ roundtrip int_hop (zs [1; 2; 3; 4; 5; 6; 7; 8]) 1 (halves 8) 4 false
     <> Some (zs [1; 2; 3; 4; 5; 6; 7; 8])
  /\ roundtrip int_hop (zs [1; 2; 3; 4; 5]) 1 (halves 8) 4 false
     <> Some (zs [1; 2; 3; 4; 5]).
Proof. split; [vm_compute; reflexivity | repeat split; by_computation]. Qed.

(** The length-8 window that the specification gives as an example of
    constant overlap-add at hop 4 does not satisfy it: its phases add up to
    1, 4/5, 4/5 and 1. *)
Lemma example_window_not_cola :
  cola example_window 4 = false
  /\ map (cola_sum example_window 4) [0; 1; 2; 3]
     = [1%Qc; (Qc_of_Z 4 / Qc_of_Z 5)%Qc; (Qc_of_Z 4 / Qc_of_Z 5)%Qc; 1%Qc].
Proof.
  split; [vm_compute; reflexivity |].
  apply ndarray_eqb_eq. vm_compute. reflexivity.
Qed.

(** C6 (as stated): in analysis mode with 10 samples, window length 2 and
    hop 5, [zpright] is -3: it is negative and is not [max(0, ...)]. *)
Lemma stana_zpright_negative :
  option_map zpright
    (stana_geometry (len (zs [1; 2; 3; 4; 5; 6; 7; 8; 9; 10])) (len (ones 2))
       (int_hop (ones 2) 5) false)
  = Some (-3)
  /\ option_map
       (fun g => Z.max 0 ((nframe g - 1) * 5 + 2 - zpleft g - 10))
       (stana_geometry (len (zs [1; 2; 3; 4; 5; 6; 7; 8; 9; 10]))
          (len (ones 2)) (int_hop (ones 2) 5) false)
     = Some 0
  /\ stana int_hop (zs [1; 2; 3; 4; 5; 6; 7; 8; 9; 10]) 1 (ones 2) 5 false
     = Some [zs [1; 2]; zs [6; 7]].
Proof.
  split; [vm_compute; reflexivity |].
  split; [vm_compute; reflexivity | by_computation].
Qed.

(** * Further properties of the module *)

(** ** Analysis *)

Lemma at_padded (sig : ndarray) (g : geometry) (y : Z) :
  0 <= zpleft g -> at_ (padded sig g) y = at_ sig (y - zpleft g).
Proof.
  intros Hl. unfold padded. rewrite at_app, len_repeat, Z2Nat.id by lia.
  destruct (Z.ltb_spec y (zpleft g)) as [Lt | Ge].
  - rewrite at_repeat_zero. symmetry. apply at_neg. lia.
  - rewrite at_app.
    destruct (Z.ltb_spec (y - zpleft g) (len sig)); [reflexivity |].
    rewrite at_repeat_zero. symmetry. now apply at_overflow.
Qed.

Section AnalysisFrames.

Context {hop_t : Type} (hop2hsize : ndarray -> hop_t -> Z).

(** The frames of [stana], by index: frame [i] is the window times the
    [fsize] samples of the padded signal from [i * hsize]. *)
Lemma stana_frames_nth (sig : ndarray) (sr : Z) (wind : ndarray)
    (hop : hop_t) (synth : bool) :
  0 < len wind -> 0 < hop2hsize wind hop ->
  synth = false \/ hop2hsize wind hop <= len wind ->
  exists g frames,
    stana_geometry (len sig) (len wind) (hop2hsize wind hop) synth = Some g
    /\ stana hop2hsize sig sr wind hop synth = Some frames
    /\ len frames = nframe g
    /\ sstart g = (if synth then hop2hsize wind hop - len wind else 0)
    /\ zpleft g = - sstart g /\ 0 <= zpleft g
    /\ (nframe g - 1) * hop2hsize wind hop < len sig - sstart g
       <= nframe g * hop2hsize wind hop
    /\ forall i, 0 <= i < nframe g ->
         exists frame,
           nth_error frames (Z.to_nat i) = Some frame
           /\ len frame = len wind
           /\ forall j, 0 <= j < len wind ->
                at_ frame j
                = (at_ (padded sig g) (i * hop2hsize wind hop + j)
                   * at_ wind j)%Qc.
Proof.
  intros Hf Hh Hmode.
  destruct (stana_spec hop2hsize sig sr wind hop synth Hf Hh Hmode)
    as (g & Hg & _ & Hst).
  destruct (stana_geometry_spec (len sig) (len wind) (hop2hsize wind hop)
              synth (len_nonneg sig) Hf Hh)
    as (g' & Hg' & Hs & He & Hl & Hr & Hc & HN & HB).
  assert (g' = g) by congruence. subst g'.
  assert (Hzl : 0 <= zpleft g).
  { rewrite Hl, Hs. destruct Hmode as [-> | Hle]; [lia | destruct synth; lia]. }
  exists g. eexists. split; [exact Hg |]. split; [exact Hst |].
  split; [unfold len; rewrite length_map, length_seq; lia |].
  split; [exact Hs |]. split; [exact Hl |]. split; [exact Hzl |].
  split; [exact HB |].
  intros i Hi. eexists. split.
  - rewrite nth_error_map.
    rewrite nth_error_nth' with (d := 0%nat) by (rewrite length_seq; lia).
    rewrite seq_nth by lia. simpl. rewrite Z2Nat.id by lia. reflexivity.
  - pose proof (len_padded sig g) as LP.
    split.
    + unfold len in *.
      rewrite length_vec_mul, length_firstn, length_skipn. nia.
    + intros j Hj. rewrite at_vec_mul. f_equal.
      rewrite at_firstn by lia.
      destruct (Z.ltb_spec j (len wind)); [| lia].
      rewrite at_skipn by nia. f_equal. lia.
Qed.

(** X2: where the hop does not exceed the window, or in analysis mode,
    [stana] returns and every frame has the length of the window. *)
Theorem stana_frame_lengths (sig : ndarray) (sr : Z) (wind : ndarray)
    (hop : hop_t) (synth : bool) :
  0 < len wind -> 0 < hop2hsize wind hop ->
  synth = false \/ hop2hsize wind hop <= len wind ->
  exists frames,
    stana hop2hsize sig sr wind hop synth = Some frames
    /\ Forall (fun frame => len frame = len wind) frames.
Proof.
  intros Hf Hh Hmode.
  destruct (stana_frames_nth sig sr wind hop synth Hf Hh Hmode)
    as (g & frames & _ & Hst & HL & _ & _ & _ & _ & Hfr).
  exists frames. split; [exact Hst |].
  apply Forall_forall. intros fr Hin.
  apply In_nth_error in Hin as [k Hk].
  assert (Hlt : (k < length frames)%nat)
    by (apply nth_error_Some; congruence).
  destruct (Hfr (Z.of_nat k)) as (fr' & Hk' & Hlen & _);
    [unfold len in HL; lia |].
  rewrite Nat2Z.id in Hk'. congruence.
Qed.

(** X3: under the same conditions, sample [j] of frame [i] is the window
    coefficient [j] times the signal sample at [sstart + i*hsize + j],
    where the signal counts as zero before its first and after its last
    sample; [sstart] is [hsize - fsize] when [synth] and 0 otherwise. *)
Theorem stana_frame_samples (sig : ndarray) (sr : Z) (wind : ndarray)
    (hop : hop_t) (synth : bool) :
  0 < len wind -> 0 < hop2hsize wind hop ->
  synth = false \/ hop2hsize wind hop <= len wind ->
  exists frames N,
    stana hop2hsize sig sr wind hop synth = Some frames
    /\ numframes hop2hsize sig sr wind hop synth = Some N
    /\ forall i j, 0 <= i < N -> 0 <= j < len wind ->
         exists frame,
           nth_error frames (Z.to_nat i) = Some frame
           /\ at_ frame j
              = (at_ sig ((if synth then hop2hsize wind hop - len wind
                           else 0)
                          + i * hop2hsize wind hop + j)
                 * at_ wind j)%Qc.
Proof.
  intros Hf Hh Hmode.
  destruct (stana_frames_nth sig sr wind hop synth Hf Hh Hmode)
    as (g & frames & Hg & Hst & HL & Hs & Hl & Hzl & HB & Hfr).
  exists frames, (nframe g). split; [exact Hst |]. split.
  - unfold numframes. unfold stana_geometry in Hg.
    destruct (py_ceil_div _ _) as [c |]; [| discriminate].
    simpl in Hg. injection Hg as <-. reflexivity.
  - intros i j Hi Hj. destruct (Hfr i Hi) as (fr & Hk & _ & Hat).
    exists fr. split; [exact Hk |].
    rewrite (Hat j Hj), at_padded by exact Hzl.
    rewrite <- Hs. do 2 f_equal. lia.
Qed.

(** X4: when the hop does not exceed the window no sample is lost: every
    sample of the signal occurs, times a window coefficient, in some
    frame. *)
Theorem stana_covers_signal (sig : ndarray) (sr : Z) (wind : ndarray)
    (hop : hop_t) (synth : bool) (x : Z) :
  0 < hop2hsize wind hop -> hop2hsize wind hop <= len wind ->
  0 <= x < len sig ->
  exists frames i j frame,
    stana hop2hsize sig sr wind hop synth = Some frames
    /\ nth_error frames i = Some frame
    /\ 0 <= j < len wind
    /\ at_ frame j = (at_ sig x * at_ wind j)%Qc.
Proof.
  intros Hh Hle Hx. assert (Hf : 0 < len wind) by lia.
  destruct (stana_frames_nth sig sr wind hop synth Hf Hh (or_intror Hle))
    as (g & frames & Hg & Hst & HL & Hs & Hl & Hzl & HB & Hfr).
  set (h := hop2hsize wind hop) in *.
  pose proof (Z.div_mod (x - sstart g) h ltac:(lia)) as Hdm.
  pose proof (Z.mod_pos_bound (x - sstart g) h Hh) as Hm.
  set (q := (x - sstart g) / h) in *. set (r := (x - sstart g) mod h) in *.
  assert (Hq : 0 <= q < nframe g) by nia.
  destruct (Hfr q Hq) as (fr & Hk & _ & Hat).
  exists frames, (Z.to_nat q), r, fr.
  split; [exact Hst |]. split; [exact Hk |]. split; [lia |].
  rewrite (Hat r) by lia. rewrite at_padded by exact Hzl.
  do 2 f_equal. lia.
Qed.

End AnalysisFrames.

Section AnalysisEdges.

Context {hop_t : Type} (hop2hsize : ndarray -> hop_t -> Z).

(** X5: for a positive hop and a window of positive length [numframes]
    returns the number [N >= 0] of grid points [sstart], [sstart + hsize],
    ... below the end of the signal: [sstart + (N-1)*hsize < len(sig)
    <= sstart + N*hsize]. *)
Theorem numframes_grid (sig : ndarray) (sr : Z) (wind : ndarray)
    (hop : hop_t) (synth : bool) :
  0 < len wind -> 0 < hop2hsize wind hop ->
  exists N,
    numframes hop2hsize sig sr wind hop synth = Some N
    /\ 0 <= N
    /\ (if synth then hop2hsize wind hop - len wind else 0)
       + (N - 1) * hop2hsize wind hop < len sig
       <= (if synth then hop2hsize wind hop - len wind else 0)
          + N * hop2hsize wind hop.
Proof.
  intros Hf Hh. unfold numframes.
  destruct (py_ceil_div_total
              (len sig - (if synth then hop2hsize wind hop - len wind else 0))
              (hop2hsize wind hop) Hh) as [N HN].
  exists N. split; [exact HN |].
  pose proof (py_ceil_div_bounds _ _ _ Hh HN) as B.
  pose proof (len_nonneg sig). split; [destruct synth; nia | lia].
Qed.

(** X6: with [synth=True] and a hop larger than the window, [stana] raises
    whenever the frame grid reaches beyond the end of the signal
    ([nframe * hsize > len(sig)]). *)
Theorem stana_synth_gapped_raises (sig : ndarray) (sr : Z) (wind : ndarray)
    (hop : hop_t) (N : Z) :
  0 < len wind -> len wind < hop2hsize wind hop ->
  numframes hop2hsize sig sr wind hop true = Some N ->
  len sig < N * hop2hsize wind hop ->
  stana hop2hsize sig sr wind hop true = None.
Proof.
  intros Hf Hgap HN Hend. unfold numframes in HN.
  assert (Hh : 0 < hop2hsize wind hop) by lia.
  pose proof (py_ceil_div_bounds _ _ _ Hh HN) as B.
  pose proof (len_nonneg sig) as Hn.
  unfold stana, stana_geometry. rewrite HN. simpl.
  unfold stana_sigpad, np_zeros. simpl.
  set (h := hop2hsize wind hop) in *. set (f := len wind) in *.
  set (n := len sig) in *.
  destruct (Z.gtb_spec (- (h - f)) 0) as [G1 | G1]; [lia |].
  destruct (Z.gtb_spec ((N - 1) * h + f - - (h - f) - n) 0) as [G2 | G2];
    [| lia].
  simpl.
  destruct (Z.ltb_spec (n + - (h - f) + ((N - 1) * h + f - - (h - f) - n)) 0)
    as [Neg | Pos]; [reflexivity |].
  assert (HN1 : 1 <= N) by nia.
  assert (Hpos : 0 <= n - (h - f)) by nia.
  assert (Hn2 : 2 <= n) by nia.
  simpl. unfold set_slice, slice_bounds, norm_index.
  rewrite len_repeat, Z2Nat.id by lia.
  set (L := n + - (h - f) + ((N - 1) * h + f - - (h - f) - n)) in *.
  assert (HL : L = (N - 1) * h + f) by (unfold L; lia).
  destruct (Z.ltb_spec (- (h - f)) 0); [| lia].
  destruct (Z.ltb_spec (L - ((N - 1) * h + f - - (h - f) - n)) 0); [lia |].
  unfold broadcast_to.
  destruct (Nat.eqb_spec (length sig)
              (Z.to_nat
                 (Z.max (Z.max 0 (- (h - f) + L))
                    (Z.min (L - ((N - 1) * h + f - - (h - f) - n)) L)
                  - Z.max 0 (- (h - f) + L)))) as [E | E].
  - unfold n, len in *. lia.
  - destruct sig as [| s0 [| s1 sig']]; try reflexivity.
    unfold n, len in *. simpl length in *. lia.
Qed.

(** X7: with [synth=True] and a hop larger than the window, when the frame
    grid ends inside the signal ([nframe * hsize <= len(sig)]) [stana]
    returns frames cut from the unpadded signal at [i * hsize]: the start
    offset [hsize - fsize] is not applied. *)
Theorem stana_synth_gapped_frames (sig : ndarray) (sr : Z) (wind : ndarray)
    (hop : hop_t) (N : Z) :
  0 < len wind -> len wind < hop2hsize wind hop ->
  numframes hop2hsize sig sr wind hop true = Some N ->
  N * hop2hsize wind hop <= len sig ->
  stana hop2hsize sig sr wind hop true
  = Some (map (fun i =>
                 vec_mul (firstn (Z.to_nat (len wind))
                            (skipn (Z.to_nat (Z.of_nat i * hop2hsize wind hop))
                                   sig))
                         wind)
              (seq 0 (Z.to_nat N))).
Proof.
  intros Hf Hgap HN Hend. unfold numframes in HN.
  assert (Hh : 0 < hop2hsize wind hop) by lia.
  pose proof (py_ceil_div_bounds _ _ _ Hh HN) as B.
  pose proof (len_nonneg sig) as Hn.
  unfold stana, stana_geometry. rewrite HN. simpl.
  set (h := hop2hsize wind hop) in *. set (f := len wind) in *.
  set (n := len sig) in *.
  unfold stana_sigpad. simpl.
  destruct (Z.gtb_spec (- (h - f)) 0) as [G1 | G1]; [lia |].
  destruct (Z.gtb_spec ((N - 1) * h + f - - (h - f) - n) 0) as [G2 | G2];
    [lia |].
  simpl. assert (HN0 : 0 <= N) by nia.
  rewrite as_strided_spec; [simpl; now rewrite map_map | lia .. |].
  intros HN1. fold n. nia.
Qed.

End AnalysisEdges.

Lemma numframes_grid_witness :
  exists N,
    numframes int_hop (zs [1; 2; 3; 4; 5]) 1 (ones 4) 2 true = Some N
    /\ 0 <= N
    /\ int_hop (ones 4) 2 - len (ones 4) + (N - 1) * int_hop (ones 4) 2
       < len (zs [1; 2; 3; 4; 5])
       <= int_hop (ones 4) 2 - len (ones 4) + N * int_hop (ones 4) 2.
Proof.
  apply (numframes_grid int_hop (zs [1; 2; 3; 4; 5]) 1 (ones 4) 2 true);
    vm_compute; reflexivity.
Defined.

Lemma stana_synth_gapped_raises_witness :
  stana int_hop (zs [1; 2; 3; 4; 5; 6; 7; 8; 9]) 1 (ones 2) 5 true = None.
Proof.
  apply (stana_synth_gapped_raises int_hop (zs [1; 2; 3; 4; 5; 6; 7; 8; 9]) 1
           (ones 2) 5 2); vm_compute; reflexivity.
Defined.

Lemma stana_synth_gapped_frames_witness :
  stana int_hop (zs [1; 2; 3; 4; 5; 6; 7; 8; 9; 10]) 1 (ones 2) 5 true
  = Some (map (fun i =>
                 vec_mul (firstn (Z.to_nat (len (ones 2)))
                            (skipn (Z.to_nat (Z.of_nat i * int_hop (ones 2) 5))
                                   (zs [1; 2; 3; 4; 5; 6; 7; 8; 9; 10])))
                         (ones 2))
              (seq 0 (Z.to_nat 2))).
Proof.
  apply (stana_synth_gapped_frames int_hop
           (zs [1; 2; 3; 4; 5; 6; 7; 8; 9; 10]) 1 (ones 2) 5 2);
    vm_compute; try reflexivity; discriminate.
Defined.

Lemma stana_frame_lengths_witness :
  exists frames,
    stana int_hop (zs [1; 2; 3; 4; 5]) 1 (ones 4) 2 true = Some frames
    /\ Forall (fun frame => len frame = len (ones 4)) frames.
Proof.
  apply (stana_frame_lengths int_hop (zs [1; 2; 3; 4; 5]) 1 (ones 4) 2 true).
  - vm_compute; reflexivity.
  - vm_compute; reflexivity.
  - right. vm_compute. discriminate.
Defined.

Lemma stana_frame_samples_witness :
  exists frames N,
    stana int_hop (zs [1; 2; 3; 4; 5]) 1 (ones 4) 2 true = Some frames
    /\ numframes int_hop (zs [1; 2; 3; 4; 5]) 1 (ones 4) 2 true = Some N
    /\ forall i j, 0 <= i < N -> 0 <= j < len (ones 4) ->
         exists frame,
           nth_error frames (Z.to_nat i) = Some frame
           /\ at_ frame j
              = (at_ (zs [1; 2; 3; 4; 5]%Z)
                   (int_hop (ones 4) 2 - len (ones 4)
                    + i * int_hop (ones 4) 2 + j)
                 * at_ (ones 4) j)%Qc.
Proof.
  apply (stana_frame_samples int_hop (zs [1; 2; 3; 4; 5]) 1 (ones 4) 2 true).
  - vm_compute; reflexivity.
  - vm_compute; reflexivity.
  - right. vm_compute. discriminate.
Defined.

Lemma stana_covers_signal_witness :
  exists frames i j frame,
    stana int_hop (zs [1; 2; 3; 4; 5]) 1 (ones 4) 2 false = Some frames
    /\ nth_error frames i = Some frame
    /\ 0 <= j < len (ones 4)
    /\ at_ frame j = (at_ (zs [1; 2; 3; 4; 5]%Z) 4 * at_ (ones 4) j)%Qc.
Proof.
  apply (stana_covers_signal int_hop (zs [1; 2; 3; 4; 5]) 1 (ones 4) 2 false 4).
  - vm_compute; reflexivity.
  - vm_compute. discriminate.
  - split; vm_compute; [discriminate | reflexivity].
Defined.

Lemma stana_length_numframes_witness :
  exists frames,
    stana int_hop (zs [1; 2; 3; 4; 5]) 1 (ones 4) 2 true = Some frames
    /\ numframes int_hop (zs [1; 2; 3; 4; 5]) 1 (ones 4) 2 true
       = Some (len frames).
Proof.
  apply (stana_length_numframes int_hop (zs [1; 2; 3; 4; 5]) 1 (ones 4) 2
           true).
  - vm_compute; reflexivity.
  - vm_compute; reflexivity.
  - right. vm_compute. discriminate.
Defined.

(** ** Synthesis *)

Lemma ola_loop_length (fsize hsize send : Z) (sframes : list ndarray) (ii : Z)
    (sout out : ndarray) :
  ola_loop fsize hsize send sframes ii sout = Some out -> len out = len sout.
Proof.
  revert ii sout. induction sframes as [| frame rest IH]; intros ii sout H.
  - simpl in H. now injection H as <-.
  - simpl in H.
    destruct (if ii <? 0 then _ else _) as [mid |] eqn:E; [| discriminate].
    simpl in H. apply IH in H. rewrite H.
    destruct (ii <? 0); [| destruct (ii + fsize >? send)];
      now apply iadd_slice_length in E.
Qed.

Lemma ola_loop_truncated (fsize hsize send : Z) (sframes : list ndarray)
    (ii : Z) (sout : ndarray) :
  0 <= fsize ->
  ola_loop fsize hsize send
    (map (fun frame => firstn (Z.to_nat fsize) frame) sframes) ii sout
  = ola_loop fsize hsize send sframes ii sout.
Proof.
  intros Hf. revert ii sout.
  induction sframes as [| frame rest IH]; intros ii sout; [reflexivity |].
  simpl.
  rewrite (get_slice_head (firstn (Z.to_nat fsize) frame)) by assumption.
  rewrite (get_slice_head frame) by assumption.
  rewrite firstn_firstn, Nat.min_id.
  set (step := if ii <? 0 then _ else _).
  destruct step as [mid |]; [| reflexivity].
  simpl. apply IH.
Qed.

Lemma ola_sum_nth (f h p0 x : Z) (sframes : list ndarray) (k : Z) :
  ola_sum f h sframes (p0 + k * h) x
  = sum_from (fun i => frame_term f (nth (Z.to_nat (i - k)) sframes [])
                         (p0 + i * h) x)
      k (length sframes).
Proof.
  revert k. induction sframes as [| frame rest IH]; intros k; [reflexivity |].
  simpl ola_sum. simpl length. simpl sum_from.
  rewrite Z.sub_diag. simpl nth. f_equal.
  replace (p0 + k * h + h) with (p0 + (k + 1) * h) by lia.
  rewrite IH. apply sum_from_ext. intros i Hi.
  replace (Z.to_nat (i - k)) with (S (Z.to_nat (i - (k + 1)))) by lia.
  reflexivity.
Qed.

Section SynthesisFacts.

Context {hop_t : Type} (hop2hsize : ndarray -> hop_t -> Z).

(** X8: [ola] uses only the first [fsize] samples of every frame: two
    frame sequences whose frames agree on their first [fsize] samples give
    the same result (the same signal or the same error). *)
Theorem ola_ignores_samples_beyond_window (sframes sframes' : list ndarray)
    (sr : Z) (wind : ndarray) (hop : hop_t) :
  Forall2 (fun frame frame' =>
             firstn (length wind) frame = firstn (length wind) frame')
          sframes sframes' ->
  ola hop2hsize sframes sr wind hop = ola hop2hsize sframes' sr wind hop.
Proof.
  intros H.
  assert (Hl : len sframes = len sframes').
  { unfold len. f_equal. eapply Forall2_length; eassumption. }
  revert Hl.
  assert (Hm : map (fun frame => firstn (Z.to_nat (len wind)) frame) sframes
               = map (fun frame => firstn (Z.to_nat (len wind)) frame)
                   sframes').
  { unfold len. rewrite Nat2Z.id.
    induction H as [| a b l l' Hab _ IH]; simpl; [reflexivity |].
    now rewrite Hab, IH. }
  intros Hl. unfold ola. rewrite <- Hl.
  destruct (ola_sstart (len wind) (hop2hsize wind hop)) as [s |];
    [| reflexivity].
  simpl.
  destruct (np_zeros _) as [sout |]; [| reflexivity].
  simpl.
  rewrite <- (ola_loop_truncated _ _ _ sframes) by apply len_nonneg.
  rewrite <- (ola_loop_truncated _ _ _ sframes') by apply len_nonneg.
  now rewrite Hm.
Qed.

(** X9: whenever [ola] returns, the result has
    [hsize*(nframe-1) + fsize + sstart] samples, [sstart] being its float
    start offset: the loop never changes the length of the buffer. *)
Theorem ola_length_is_send (sframes : list ndarray) (sr : Z) (wind : ndarray)
    (hop : hop_t) (out : ndarray) :
  ola hop2hsize sframes sr wind hop = Some out ->
  exists s,
    ola_sstart (len wind) (hop2hsize wind hop) = Some s
    /\ len out
       = hop2hsize wind hop * (len sframes - 1) + len wind + s.
Proof.
  unfold ola. intros H.
  destruct (ola_sstart (len wind) (hop2hsize wind hop)) as [s |];
    [| discriminate].
  exists s. split; [reflexivity |]. simpl in H.
  unfold np_zeros in H.
  destruct (Z.ltb_spec
              (hop2hsize wind hop * (len sframes - 1) + len wind + s) 0);
    [discriminate |].
  simpl in H. apply ola_loop_length in H.
  rewrite H, len_repeat. lia.
Qed.

(** X10: where the start offset is [hsize - fsize] and every frame is at
    least as long as the window, [ola] returns and sample [x] of the
    result is the sum over the frames [i] that cover [x] of their sample
    [x - (hsize - fsize + i*hsize)]. *)
Theorem ola_overlap_add (sframes : list ndarray) (sr : Z) (wind : ndarray)
    (hop : hop_t) :
  0 < len wind -> 0 < hop2hsize wind hop ->
  ola_sstart (len wind) (hop2hsize wind hop)
    = Some (hop2hsize wind hop - len wind) ->
  Forall (fun frame => len wind <= len frame) sframes ->
  exists out,
    ola hop2hsize sframes sr wind hop = Some out
    /\ len out = hop2hsize wind hop * len sframes
    /\ forall x, 0 <= x < len out ->
         nth_error out (Z.to_nat x)
         = Some
             (sum_from
                (fun i =>
                   let start :=
                     hop2hsize wind hop - len wind
                     + i * hop2hsize wind hop in
                   if (start <=? x) && (x <? start + len wind)
                   then at_ (nth (Z.to_nat i) sframes []) (x - start)
                   else 0%Qc)
                0 (length sframes)).
Proof.
  intros Hf Hh Hs Hall.
  destruct (ola_exact_spec hop2hsize sframes sr wind hop Hf Hh Hs Hall)
    as (out & E & L & A).
  exists out. split; [exact E |]. split; [exact L |].
  intros x Hx.
  rewrite nth_error_nth' with (d := 0%Qc) by (unfold len in Hx; lia).
  f_equal. rewrite <- at_nth by lia. rewrite (A x) by lia.
  pose proof (ola_sum_nth (len wind) (hop2hsize wind hop)
                (hop2hsize wind hop - len wind) x sframes 0) as M.
  rewrite Z.mul_0_l, Z.add_0_r in M. rewrite M.
  apply sum_from_ext. intros i Hi. unfold frame_term.
  now rewrite Z.sub_0_r.
Qed.

End SynthesisFacts.

Lemma ola_ignores_samples_beyond_window_witness :
  ola int_hop [zs [1; 2; 3; 4; 9; 9]; zs [5; 6; 7; 8; 9; 9]] 1 (ones 4) 2
  = ola int_hop [zs [1; 2; 3; 4]; zs [5; 6; 7; 8; 0]] 1 (ones 4) 2.
Proof.
  apply (ola_ignores_samples_beyond_window int_hop).
  repeat constructor.
Defined.

Lemma ola_length_is_send_witness :
  exists s,
    ola_sstart (len (ones 10)) (int_hop (ones 10) 9) = Some s
    /\ len (repeat 1%Qc 10)
       = int_hop (ones 10) 9 * (len [ones 10] - 1) + len (ones 10) + s.
Proof.
  apply (ola_length_is_send int_hop [ones 10] 1 (ones 10) 9).
  by_computation.
Defined.

Lemma ola_overlap_add_witness :
  exists out,
    ola int_hop [zs [1; 2; 3; 4]; zs [5; 6; 7; 8]] 1 (ones 4) 2 = Some out
    /\ len out = int_hop (ones 4) 2 * len [zs [1; 2; 3; 4]; zs [5; 6; 7; 8]]
    /\ forall x, 0 <= x < len out ->
         nth_error out (Z.to_nat x)
         = Some
             (sum_from
                (fun i =>
                   let start :=
                     int_hop (ones 4) 2 - len (ones 4)
                     + i * int_hop (ones 4) 2 in
                   if (start <=? x) && (x <? start + len (ones 4))
                   then at_ (nth (Z.to_nat i)
                               [zs [1; 2; 3; 4]; zs [5; 6; 7; 8]] [])
                            (x - start)
                   else 0%Qc)
                0 (length [zs [1; 2; 3; 4]; zs [5; 6; 7; 8]])).
Proof.
  apply (ola_overlap_add int_hop [zs [1; 2; 3; 4]; zs [5; 6; 7; 8]] 1
           (ones 4) 2); try (vm_compute; reflexivity).
  repeat constructor; vm_compute; discriminate.
Defined.

Lemma ola_length_exact_witness :
  option_map len
    (ola int_hop [zs [1; 2; 3; 4]; zs [5; 6; 7; 8]] 1 (ones 4) 2)
  = Some (int_hop (ones 4) 2 * len [zs [1; 2; 3; 4]; zs [5; 6; 7; 8]]).
Proof.
  apply (ola_length_exact int_hop [zs [1; 2; 3; 4]; zs [5; 6; 7; 8]] 1
           (ones 4) 2); try (vm_compute; reflexivity).
  repeat constructor; vm_compute; discriminate.
Defined.

(** ** Analysis followed by synthesis *)

Section Composition.

Context {hop_t : Type} (hop2hsize : ndarray -> hop_t -> Z).

(** [ola] on the windowed frames cut from a buffer at multiples of the
    hop: sample [x] is the buffer sample at [x + fsize - hsize] times the
    sum of the window coefficients that meet there. *)
Lemma ola_strided_frames (buf : ndarray) (sr : Z) (wind : ndarray)
    (hop : hop_t) (N : nat) :
  0 < len wind -> 0 < hop2hsize wind hop ->
  ola_sstart (len wind) (hop2hsize wind hop)
    = Some (hop2hsize wind hop - len wind) ->
  Z.of_nat N * hop2hsize wind hop - hop2hsize wind hop + len wind <= len buf
    \/ N = 0%nat ->
  exists out,
    ola hop2hsize
      (map (fun i =>
              vec_mul (firstn (Z.to_nat (len wind))
                         (skipn (Z.to_nat (Z.of_nat i * hop2hsize wind hop))
                                buf)) wind)
           (seq 0 N)) sr wind hop = Some out
    /\ len out = hop2hsize wind hop * Z.of_nat N
    /\ forall x, 0 <= x ->
         at_ out x
         = (at_ buf (x + len wind - hop2hsize wind hop)
            * sum_from
                (fun i => at_ wind (x + len wind - hop2hsize wind hop
                                    - i * hop2hsize wind hop))
                0 N)%Qc.
Proof.
  intros Hf Hh Hs Hbuf.
  set (h := hop2hsize wind hop) in *. set (f := len wind) in *.
  set (F := fun i : Z =>
              vec_mul (firstn (Z.to_nat f) (skipn (Z.to_nat (i * h)) buf))
                      wind).
  change (map _ (seq 0 N)) with (map (fun i => F (Z.of_nat i)) (seq 0 N)).
  assert (Hall : Forall (fun frame => f <= len frame)
                   (map (fun i => F (Z.of_nat i)) (seq 0 N))).
  { apply Forall_forall. intros fr Hin. apply in_map_iff in Hin
      as (i & <- & Hi). apply in_seq in Hi. unfold F, f, len in *.
    rewrite length_vec_mul, length_firstn, length_skipn. nia. }
  destruct (ola_exact_spec hop2hsize _ sr wind hop Hf Hh Hs Hall)
    as (out & E & L & A).
  fold h in L, A. fold f in A.
  exists out. split; [exact E |]. split.
  { rewrite L. unfold len. now rewrite length_map, length_seq. }
  intros x Hx. rewrite (A x Hx).
  pose proof (ola_sum_map f h (h - f) x F N 0) as M.
  change (Z.of_nat 0) with 0 in M. rewrite Z.mul_0_l, Z.add_0_r in M.
  rewrite M. clear M. rewrite <- sum_from_scale.
  apply sum_from_ext. intros i Hi. unfold frame_term, F.
  rewrite at_vec_mul.
  destruct (Z.leb_spec (h - f + i * h) x) as [G1 | G1];
    destruct (Z.ltb_spec x (h - f + i * h + f)) as [G2 | G2]; simpl.
  - rewrite at_firstn by lia.
    destruct (Z.ltb_spec (x - (h - f + i * h)) f); [| lia].
    rewrite at_skipn by nia. f_equal; f_equal; lia.
  - rewrite (at_overflow wind (x + f - h - i * h)) by (fold f; lia). ring.
  - rewrite (at_neg wind (x + f - h - i * h)) by lia. ring.
  - rewrite (at_neg wind (x + f - h - i * h)) by lia. ring.
Qed.

(** X11: with the default [synth=False] of [stana], a hop that does not
    exceed the window, a window with constant overlap-add 1 and the start
    offset [hsize - fsize] in [ola], the round trip returns the signal
    without its first [fsize - hsize] samples, followed by zeros up to
    [hsize * nframe] samples: the signal comes back advanced by
    [fsize - hsize]. *)
Theorem roundtrip_default_is_shifted (sig : ndarray) (sr : Z) (wind : ndarray)
    (hop : hop_t) :
  0 < hop2hsize wind hop -> hop2hsize wind hop <= len wind ->
  ola_sstart (len wind) (hop2hsize wind hop)
    = Some (hop2hsize wind hop - len wind) ->
  cola wind (hop2hsize wind hop) = true ->
  exists N,
    numframes hop2hsize sig sr wind hop false = Some N
    /\ roundtrip hop2hsize sig sr wind hop false
       = Some (skipn (Z.to_nat (len wind - hop2hsize wind hop)) sig
                 ++ repeat 0%Qc
                      (Z.to_nat
                         (hop2hsize wind hop * N
                          - Z.max 0 (len sig
                                     - (len wind - hop2hsize wind hop))))).
Proof.
  intros Hh Hle Hs Hcola.
  assert (Hf : 0 < len wind) by lia.
  destruct (stana_spec hop2hsize sig sr wind hop false Hf Hh (or_introl eq_refl))
    as (g & Hg & _ & Hst).
  destruct (stana_geometry_spec (len sig) (len wind) (hop2hsize wind hop)
              false (len_nonneg sig) Hf Hh)
    as (g' & Hg' & Hgs & He & Hl & Hr & Hc & HN & HB).
  assert (g' = g) by congruence. subst g'.
  rewrite Hgs in Hl, Hc, HB. rewrite Hl in Hr.
  pose proof (len_padded sig g) as LP. pose proof (len_nonneg sig) as Hn.
  destruct (ola_strided_frames (padded sig g) sr wind hop
              (Z.to_nat (nframe g)) Hf Hh Hs) as (out & E & L & A).
  { left. rewrite LP. lia. }
  set (h := hop2hsize wind hop) in *. set (f := len wind) in *.
  set (n := len sig) in *. set (N := nframe g) in *.
  exists N. split; [exact Hc |].
  unfold roundtrip. rewrite Hst. simpl. rewrite E. f_equal.
  assert (LS : len (skipn (Z.to_nat (f - h)) sig) = Z.max 0 (n - (f - h))).
  { unfold n, len. rewrite length_skipn. lia. }
  apply at_ext.
  { rewrite L, len_app, len_repeat, LS. lia. }
  intros x Hx. rewrite (A x) by lia.
  rewrite at_padded by lia. rewrite Hl, Z.sub_0_r.
  rewrite at_app, LS.
  destruct (Z.ltb_spec (x + f - h) n) as [In | Out].
  - destruct (Z.ltb_spec x (Z.max 0 (n - (f - h)))); [| lia].
    rewrite (cola_frames_sum wind h (x + f - h) (Z.to_nat N) Hh Hcola).
    + rewrite at_skipn by lia. rewrite Qcmult_1_r. f_equal. lia.
    + nia.
    + fold f. lia.
  - destruct (Z.ltb_spec x (Z.max 0 (n - (f - h)))); [lia |].
    rewrite at_repeat_zero, (at_overflow sig (x + f - h)) by (fold n; lia).
    ring.
Qed.

End Composition.

Lemma roundtrip_default_is_shifted_witness :
  exists N,
    numframes int_hop (zs [1; 2; 3; 4; 5; 6; 7; 8]) 1 (halves 8) 4 false
      = Some N
    /\ roundtrip int_hop (zs [1; 2; 3; 4; 5; 6; 7; 8]) 1 (halves 8) 4 false
       = Some (skipn (Z.to_nat (len (halves 8) - int_hop (halves 8) 4))
                 (zs [1; 2; 3; 4; 5; 6; 7; 8])
                 ++ repeat 0%Qc
                      (Z.to_nat
                         (int_hop (halves 8) 4 * N
                          - Z.max 0 (len (zs [1; 2; 3; 4; 5; 6; 7; 8])
                                     - (len (halves 8)
                                        - int_hop (halves 8) 4))))).
Proof.
  apply (roundtrip_default_is_shifted int_hop (zs [1; 2; 3; 4; 5; 6; 7; 8]) 1
           (halves 8) 4); vm_compute; try reflexivity; discriminate.
Defined.

(** ** The float formulas on finite ranges *)

Lemma In_ints_upto (n : nat) (x : Z) :
  In x (ints_upto n) <-> 1 <= x <= Z.of_nat n.
Proof.
  unfold ints_upto. rewrite in_map_iff. split.
  - intros (i & <- & Hi). apply in_seq in Hi. lia.
  - intros Hx. exists (Z.to_nat x). split; [lia |]. apply in_seq. lia.
Qed.

Lemma option_Z_eqb_eq (a b : option Z) :
  option_eqb Z.eqb a b = true -> a = b.
Proof. apply option_eqb_eq. intros x y. apply Z.eqb_eq. Qed.

(** The float formulas, run over finite ranges. *)
Lemma pow2_windows_checked :
  forallb (fun k =>
             forallb (fun h => sstart_exactb (2 ^ Z.of_nat k) h)
                     (ints_upto (2 ^ k)))
          (seq 0 13) = true.
Proof. vm_compute. reflexivity. Qed.

Lemma small_windows_checked :
  forallb (fun f => forallb (fun h => sstart_nearb f h) (ints_upto 128))
          (ints_upto 128) = true.
Proof. vm_compute. reflexivity. Qed.

Lemma usual_rates_checked :
  forallb (fun sr =>
             forallb (fun frate => frate2hsize_floorb sr frate)
                     (ints_upto 1000))
          usual_rates = true.
Proof. vm_compute. reflexivity. Qed.

(** X12: for every window length that is a power of two up to 4096 and
    every hop from 1 to the window length, the float start offset of [ola]
    is exactly [hsize - fsize]. *)
Theorem ola_sstart_exact_pow2 (k : nat) (hsize : Z) :
  (k <= 12)%nat -> 1 <= hsize <= 2 ^ Z.of_nat k ->
  ola_sstart (2 ^ Z.of_nat k) hsize = Some (hsize - 2 ^ Z.of_nat k).
Proof.
  intros Hk Hh.
  pose proof pow2_windows_checked as C. rewrite forallb_forall in C.
  specialize (C k ltac:(apply in_seq; lia)).
  rewrite forallb_forall in C.
  apply option_Z_eqb_eq, C, In_ints_upto.
  rewrite Nat2Z.inj_pow. exact Hh.
Qed.

(** X13: for all window lengths and hops from 1 to 128 the float start
    offset of [ola] is [hsize - fsize] or one sample nearer to zero. *)
Theorem ola_sstart_off_by_at_most_one (fsize hsize : Z) :
  1 <= fsize <= 128 -> 1 <= hsize <= 128 ->
  exists s,
    ola_sstart fsize hsize = Some s
    /\ (s = hsize - fsize
        \/ (hsize < fsize /\ s = hsize - fsize + 1)
        \/ (fsize < hsize /\ s = hsize - fsize - 1)).
Proof.
  intros Hf Hh.
  pose proof small_windows_checked as C. rewrite forallb_forall in C.
  specialize (C fsize ltac:(apply In_ints_upto; simpl; lia)).
  rewrite forallb_forall in C.
  specialize (C hsize ltac:(apply In_ints_upto; simpl; lia)).
  unfold sstart_nearb in C.
  destruct (ola_sstart fsize hsize) as [s |]; [| discriminate].
  exists s. split; [reflexivity |].
  apply orb_true_iff in C as [C | C];
    [apply orb_true_iff in C as [C | C] |].
  - left. now apply Z.eqb_eq.
  - right. left. apply andb_true_iff in C as [C1 C2].
    split; [now apply Z.ltb_lt | now apply Z.eqb_eq].
  - right. right. apply andb_true_iff in C as [C1 C2].
    split; [now apply Z.ltb_lt | now apply Z.eqb_eq].
Qed.

(** X14: for the usual sampling rates (8000 ... 96000 Hz) and every frame
    rate from 1 to 1000 Hz, [frate2hsize] returns the floor of
    [sr / frate]. *)
Theorem frate2hsize_floor (sr frate : Z) :
  In sr usual_rates -> 1 <= frate <= 1000 ->
  frate2hsize sr frate = Some (sr / frate).
Proof.
  intros Hsr Hfr.
  pose proof usual_rates_checked as C. rewrite forallb_forall in C.
  specialize (C sr Hsr). rewrite forallb_forall in C.
  apply option_Z_eqb_eq, C, In_ints_upto. simpl. lia.
Qed.

Lemma ola_sstart_exact_pow2_witness :
  ola_sstart (2 ^ Z.of_nat 10) 256 = Some (256 - 2 ^ Z.of_nat 10).
Proof.
  apply (ola_sstart_exact_pow2 10 256); [vm_compute; lia | ].
  split; vm_compute; discriminate.
Defined.

Lemma ola_sstart_off_by_at_most_one_witness :
  exists s,
    ola_sstart 10 9 = Some s
    /\ (s = 9 - 10 \/ (9 < 10 /\ s = 9 - 10 + 1)
        \/ (10 < 9 /\ s = 9 - 10 - 1)).
Proof.
  apply (ola_sstart_off_by_at_most_one 10 9); lia.
Defined.

Lemma frate2hsize_floor_witness :
  frate2hsize 16000 100 = Some (16000 / 100).
Proof.
  apply (frate2hsize_floor 16000 100); [simpl; tauto | lia].
Defined.
